(** * Qt action adapters of app-model: a shallow embedding

    Source: [src/app_model/backends/qt/_qaction.py].  The three classes
    [QCommandAction], [QCommandRuleAction] and [QMenuItemAction] are embedded
    as state-passing functions over a store that holds the action objects,
    the class-level dictionary [QMenuItemAction._cache], the slots connected
    to the [destroyed] signals, and the sequence of calls made to the
    collaborators of the module (toolkit constructor, command registry,
    injection store). *)

From Stdlib Require Import ZArith String List Bool Lia.
From stdpp Require Import base option gmap strings list fin_maps.

Local Open Scope string_scope.
Local Open Scope list_scope.
Local Open Scope Z_scope.

(** ** Python values, exceptions and results *)

Inductive PyObject :=
| PyNone
| PyBool (b : bool)
| PyInt (z : Z)
| PyStr (s : string).

(** The exception classes the module names or can meet, with the part of
    the built-in hierarchy that [contextlib.suppress] looks at. *)
Inductive ExcClass :=
| BaseException
| PyException
| NameError
| UnboundLocalError
| RuntimeError
| RecursionError
| NotImplementedError
| AttributeError
| KeyError
| TypeError
| ValueError
| ZeroDivisionError.

Global Instance ExcClass_eq_dec : EqDecision ExcClass.
Proof. solve_decision. Defined.

(** Direct base class in the built-in hierarchy. *)
Definition base_class (c : ExcClass) : option ExcClass :=
  match c with
  | BaseException => None
  | PyException => Some BaseException
  | UnboundLocalError => Some NameError
  | RecursionError | NotImplementedError => Some RuntimeError
  | NameError | RuntimeError | AttributeError | KeyError | TypeError
  | ValueError | ZeroDivisionError => Some PyException
  end.

(** [issubclass c d]; the hierarchy above has depth three. *)
Definition issubclass (c d : ExcClass) : bool :=
  bool_decide (c = d)
  || match base_class c with
     | None => false
     | Some c1 =>
         bool_decide (c1 = d)
         || match base_class c1 with
            | None => false
            | Some c2 =>
                bool_decide (c2 = d)
                || match base_class c2 with
                   | None => false
                   | Some c3 => bool_decide (c3 = d)
                   end
            end
     end.

Record PyExc := mkExc { exc_class : ExcClass; exc_msg : string }.

Inductive Result (A : Type) :=
| Ok (a : A)
| Raise (e : PyExc).
Arguments Ok {A} a.
Arguments Raise {A} e.

(** A context is a [Mapping[str, object]]. *)
Abbreviation Ctx := (gmap string PyObject).

(** ** Collaborators that live outside the module

    [Expr] is [app_model.expressions.Expr]; the module only calls
    [Expr.eval(ctx)], which returns a boolean or raises.  [Callable] stands
    for the zero-argument ["get current value"] providers of a [ToggleRule];
    [call f] is the Python call [f()].  The two conversions to the toolkit's
    key sequences and icons come from sibling modules.  They are taken to
    return: the icon conversion raises for a key no icon font provides, and
    the initialiser then ends at that line, a run this embedding does not
    have.  What is stated about the lines after the conversion is stated
    for a conversion that returned, or for a rule without icon. *)
Class Host := {
  Expr : Type;
  eval : Expr → Ctx → Result bool;
  Callable : Type;
  call : Callable → Result bool;
  QKeyBindingSequence : string → string;   (* ._qkeymap: native key sequence *)
  to_qicon : string → string;              (* ._util: native icon *)
}.

(** A [Future]: [result] blocks for the outcome and raises on failure. *)
Record Future := mkFuture { outcome : Result PyObject }.

Definition result (f : Future) : Result PyObject := outcome f.

Inductive OnUnresolved := unresolved_raise | unresolved_warn | unresolved_ignore.

Section Descriptors.
Context `{Host}.

(** [app_model.types.ToggleRule] *)
Record ToggleRule := mkToggleRule {
  condition : option Expr;
  get_current : option Callable;
}.

(** [CommandRule.toggled : Optional[Union[ToggleRule, Expr]]] *)
Inductive Toggled :=
| ToggledExpr (e : Expr)
| ToggledRule (r : ToggleRule).

(** [app_model.types.CommandRule], the fields the module reads. *)
Record CommandRule := mkCommandRule {
  id : string;
  title : string;
  short_title : option string;
  icon : option string;
  tooltip : option string;
  status_tip : option string;
  enablement : option Expr;
  toggled : option Toggled;
}.

(** [app_model.types.MenuItem] *)
Record MenuItem := mkMenuItem {
  command : CommandRule;
  when : option Expr;
  group : option string;
  order : option Z;
}.

(** What [keybindings.get_keybinding] returns when a shortcut is registered. *)
Record KeyBindingRule := mkKeyBindingRule { keybinding : string }.

(** The application handle: its identity [id(app)], its name, and the three
    services the module consumes. *)
Record Application := mkApplication {
  app_id : Z;
  name : string;
  get_keybinding : string → option KeyBindingRule;
  execute_command : string → Result Future;
  inject : Callable → OnUnresolved → Callable;
}.

End Descriptors.

(** [hash(menu_item)] is computed by the descriptor class, outside the
    module. *)
Class MenuItemHash `{Host} := hash : MenuItem → Z.

(** ** The store *)

(** Object identity of an action. *)
Abbreviation Ref := nat.

(** A cache key: [(id(app), hash(menu_item))]. *)
Abbreviation Key := (Z * Z)%type.

(** Calls made to collaborators, in the order they happen. *)
Inductive Event `{Host} :=
| EvQActionInit (self : Ref)                          (* QAction.__init__(self, parent) *)
| EvExecuteCommand (app : Z) (command_id : string)    (* app.commands.execute_command(id) *)
| EvResult (app : Z) (command_id : string)            (* future.result() *)
| EvInject (app : Z) (f : Callable) (policy : OnUnresolved)  (* app.injection_store.inject(f, ...) *)
| EvCall (f : Callable).                              (* _current() *)

Section Store.
Context `{Host}.

(** An action object.  The first group is the state the toolkit keeps for a
    [QAction] (each property holds the last value given to its setter);
    the second group is the Python attributes the classes of the module
    add, [None] standing for an attribute that was never assigned.

    What the toolkit's getters report is not always the last value set:
    [isEnabled()] also depends on [visible] (see [QAction.isEnabled]), and
    [toolTip()] falls back to the text while no tool tip was set, so an
    empty [toolTip] here means that [setToolTip] gave none, not that the
    action shows none. *)
Record Action := mkAction {
  constructed : bool;                 (* QAction.__init__ has run on the wrapper *)
  parent : option Ref;
  objectName : string;
  shortcut : option string;
  triggered_slots : nat;              (* connections of triggered to _on_triggered *)
  text : string;
  qicon : option string;
  toolTip : string;                   (* what setToolTip gave; empty when it gave none *)
  statusTip : string;
  checkable : bool;
  checked : bool;
  enabled : bool;                     (* what setEnabled was last given *)
  visible : bool;                     (* what setVisible was last given *)
  destroyed_slots : list Key;         (* slots on self.destroyed; each pops its key *)
  _app : option Application;
  _command_id : option string;
  _cmd_rule : option CommandRule;
  _menu_item : option MenuItem;
  _initialized : option bool;
}.

(** A freshly allocated wrapper, with the toolkit's defaults. *)
Definition new_action : Action :=
  {| constructed := false; parent := None; objectName := ""; shortcut := None;
     triggered_slots := 0%nat; text := ""; qicon := None; toolTip := "";
     statusTip := ""; checkable := false; checked := false; enabled := true;
     visible := true; destroyed_slots := []; _app := None; _command_id := None;
     _cmd_rule := None; _menu_item := None; _initialized := None |}.

Global Instance Action_inhabited : Inhabited Action := populate new_action.

(** Field updates: the object [a] with one property or attribute written. *)
Definition with_qobject (p : option Ref) (a : Action) : Action :=
  mkAction true p (objectName a) (shortcut a) (triggered_slots a) (text a)
    (qicon a) (toolTip a) (statusTip a) (checkable a) (checked a)
    (enabled a) (visible a) (destroyed_slots a) (_app a) (_command_id a)
    (_cmd_rule a) (_menu_item a) (_initialized a).

Definition with_objectName (s : string) (a : Action) : Action :=
  mkAction (constructed a) (parent a) s (shortcut a) (triggered_slots a)
    (text a) (qicon a) (toolTip a) (statusTip a) (checkable a) (checked a)
    (enabled a) (visible a) (destroyed_slots a) (_app a) (_command_id a)
    (_cmd_rule a) (_menu_item a) (_initialized a).

Definition with_shortcut (s : string) (a : Action) : Action :=
  mkAction (constructed a) (parent a) (objectName a) (Some s)
    (triggered_slots a) (text a) (qicon a) (toolTip a) (statusTip a)
    (checkable a) (checked a) (enabled a) (visible a) (destroyed_slots a)
    (_app a) (_command_id a) (_cmd_rule a) (_menu_item a) (_initialized a).

Definition with_triggered_slot (a : Action) : Action :=
  mkAction (constructed a) (parent a) (objectName a) (shortcut a)
    (S (triggered_slots a)) (text a) (qicon a) (toolTip a) (statusTip a)
    (checkable a) (checked a) (enabled a) (visible a) (destroyed_slots a)
    (_app a) (_command_id a) (_cmd_rule a) (_menu_item a) (_initialized a).

Definition with_text (s : string) (a : Action) : Action :=
  mkAction (constructed a) (parent a) (objectName a) (shortcut a)
    (triggered_slots a) s (qicon a) (toolTip a) (statusTip a) (checkable a)
    (checked a) (enabled a) (visible a) (destroyed_slots a) (_app a)
    (_command_id a) (_cmd_rule a) (_menu_item a) (_initialized a).

Definition with_icon (i : string) (a : Action) : Action :=
  mkAction (constructed a) (parent a) (objectName a) (shortcut a)
    (triggered_slots a) (text a) (Some i) (toolTip a) (statusTip a)
    (checkable a) (checked a) (enabled a) (visible a) (destroyed_slots a)
    (_app a) (_command_id a) (_cmd_rule a) (_menu_item a) (_initialized a).

Definition with_toolTip (s : string) (a : Action) : Action :=
  mkAction (constructed a) (parent a) (objectName a) (shortcut a)
    (triggered_slots a) (text a) (qicon a) s (statusTip a) (checkable a)
    (checked a) (enabled a) (visible a) (destroyed_slots a) (_app a)
    (_command_id a) (_cmd_rule a) (_menu_item a) (_initialized a).

Definition with_statusTip (s : string) (a : Action) : Action :=
  mkAction (constructed a) (parent a) (objectName a) (shortcut a)
    (triggered_slots a) (text a) (qicon a) (toolTip a) s (checkable a)
    (checked a) (enabled a) (visible a) (destroyed_slots a) (_app a)
    (_command_id a) (_cmd_rule a) (_menu_item a) (_initialized a).

Definition with_checkable (b : bool) (a : Action) : Action :=
  mkAction (constructed a) (parent a) (objectName a) (shortcut a)
    (triggered_slots a) (text a) (qicon a) (toolTip a) (statusTip a) b
    (checked a) (enabled a) (visible a) (destroyed_slots a) (_app a)
    (_command_id a) (_cmd_rule a) (_menu_item a) (_initialized a).

Definition with_checked (b : bool) (a : Action) : Action :=
  mkAction (constructed a) (parent a) (objectName a) (shortcut a)
    (triggered_slots a) (text a) (qicon a) (toolTip a) (statusTip a)
    (checkable a) b (enabled a) (visible a) (destroyed_slots a) (_app a)
    (_command_id a) (_cmd_rule a) (_menu_item a) (_initialized a).

Definition with_enabled (b : bool) (a : Action) : Action :=
  mkAction (constructed a) (parent a) (objectName a) (shortcut a)
    (triggered_slots a) (text a) (qicon a) (toolTip a) (statusTip a)
    (checkable a) (checked a) b (visible a) (destroyed_slots a) (_app a)
    (_command_id a) (_cmd_rule a) (_menu_item a) (_initialized a).

Definition with_visible (b : bool) (a : Action) : Action :=
  mkAction (constructed a) (parent a) (objectName a) (shortcut a)
    (triggered_slots a) (text a) (qicon a) (toolTip a) (statusTip a)
    (checkable a) (checked a) (enabled a) b (destroyed_slots a) (_app a)
    (_command_id a) (_cmd_rule a) (_menu_item a) (_initialized a).

Definition with_destroyed_slot (key : Key) (a : Action) : Action :=
  mkAction (constructed a) (parent a) (objectName a) (shortcut a)
    (triggered_slots a) (text a) (qicon a) (toolTip a) (statusTip a)
    (checkable a) (checked a) (enabled a) (visible a)
    (destroyed_slots a ++ [key]) (_app a) (_command_id a) (_cmd_rule a)
    (_menu_item a) (_initialized a).

Definition with__app (v : Application) (a : Action) : Action :=
  mkAction (constructed a) (parent a) (objectName a) (shortcut a)
    (triggered_slots a) (text a) (qicon a) (toolTip a) (statusTip a)
    (checkable a) (checked a) (enabled a) (visible a) (destroyed_slots a)
    (Some v) (_command_id a) (_cmd_rule a) (_menu_item a) (_initialized a).

Definition with__command_id (v : string) (a : Action) : Action :=
  mkAction (constructed a) (parent a) (objectName a) (shortcut a)
    (triggered_slots a) (text a) (qicon a) (toolTip a) (statusTip a)
    (checkable a) (checked a) (enabled a) (visible a) (destroyed_slots a)
    (_app a) (Some v) (_cmd_rule a) (_menu_item a) (_initialized a).

Definition with__cmd_rule (v : CommandRule) (a : Action) : Action :=
  mkAction (constructed a) (parent a) (objectName a) (shortcut a)
    (triggered_slots a) (text a) (qicon a) (toolTip a) (statusTip a)
    (checkable a) (checked a) (enabled a) (visible a) (destroyed_slots a)
    (_app a) (_command_id a) (Some v) (_menu_item a) (_initialized a).

Definition with__menu_item (v : MenuItem) (a : Action) : Action :=
  mkAction (constructed a) (parent a) (objectName a) (shortcut a)
    (triggered_slots a) (text a) (qicon a) (toolTip a) (statusTip a)
    (checkable a) (checked a) (enabled a) (visible a) (destroyed_slots a)
    (_app a) (_command_id a) (_cmd_rule a) (Some v) (_initialized a).

Definition with__initialized (v : bool) (a : Action) : Action :=
  mkAction (constructed a) (parent a) (objectName a) (shortcut a)
    (triggered_slots a) (text a) (qicon a) (toolTip a) (statusTip a)
    (checkable a) (checked a) (enabled a) (visible a) (destroyed_slots a)
    (_app a) (_command_id a) (_cmd_rule a) (_menu_item a) (Some v).

Record World := mkWorld {
  instances : gmap string Application;   (* applications by name *)
  next_id : Z;                           (* identity of the next application created *)
  _cache : gmap Key Ref;                 (* QMenuItemAction._cache *)
  heap : gmap Ref Action;
  app_destroyed : gmap Z (list Key);     (* slots on each application's destroyed signal *)
  trace : list Event;
}.

Definition with_heap (f : gmap Ref Action → gmap Ref Action) (w : World) : World :=
  {| instances := instances w; next_id := next_id w; _cache := _cache w;
     heap := f (heap w); app_destroyed := app_destroyed w; trace := trace w |}.

Definition with_cache (f : gmap Key Ref → gmap Key Ref) (w : World) : World :=
  {| instances := instances w; next_id := next_id w; _cache := f (_cache w);
     heap := heap w; app_destroyed := app_destroyed w; trace := trace w |}.

Definition with_app_destroyed (f : gmap Z (list Key) → gmap Z (list Key)) (w : World) : World :=
  {| instances := instances w; next_id := next_id w; _cache := _cache w;
     heap := heap w; app_destroyed := f (app_destroyed w); trace := trace w |}.

Definition with_instances (f : gmap string Application → gmap string Application)
    (n : Z) (w : World) : World :=
  {| instances := f (instances w); next_id := n; _cache := _cache w;
     heap := heap w; app_destroyed := app_destroyed w; trace := trace w |}.

Definition log (ev : Event) (w : World) : World :=
  {| instances := instances w; next_id := next_id w; _cache := _cache w;
     heap := heap w; app_destroyed := app_destroyed w; trace := trace w ++ [ev] |}.

(** The object behind a reference. *)
Definition obj (w : World) (r : Ref) : Action := heap w !!! r.

(** In-place mutation of the object behind [self]. *)
Definition upd (self : Ref) (f : Action → Action) (w : World) : World :=
  with_heap (λ h, <[self := f (h !!! self)]> h) w.

(** ** Computations: state passing with exceptions

    A raised exception keeps the store as it was when it was raised:
    nothing is rolled back. *)
Definition M (A : Type) : Type := World → World * Result A.

Definition ret {A} (a : A) : M A := λ w, (w, Ok a).

Definition raise {A} (e : PyExc) : M A := λ w, (w, Raise e).

Definition bind {A B} (m : M A) (f : A → M B) : M B :=
  λ w, match m w with
       | (w', Ok a) => f a w'
       | (w', Raise e) => (w', Raise e)
       end.

Definition lift {A} (r : Result A) : M A := λ w, (w, r).

Definition modify (f : World → World) : M unit := λ w, (f w, Ok tt).

Definition gets {A} (f : World → A) : M A := λ w, (w, Ok (f w)).

(** The store a computation leaves, and what it returns or raises. *)
Definition exec {A} (m : M A) (w : World) : World := fst (m w).
Definition value {A} (m : M A) (w : World) : Result A := snd (m w).

(** [with contextlib.suppress(cls): x = body], for a local [x] that holds
    [dflt] before the block: a suppressed exception leaves it as it was. *)
Definition suppress_or {A} (cls : ExcClass) (dflt : A) (body : M A) : M A :=
  λ w, match body w with
       | (w', Raise e) =>
           if issubclass (exc_class e) cls then (w', Ok dflt) else (w', Raise e)
       | (w', Ok a) => (w', Ok a)
       end.

(** [with contextlib.suppress(cls): body] *)
Definition suppress (cls : ExcClass) (body : M unit) : M unit :=
  suppress_or cls tt body.

End Store.

(** The notations [x ← m; k] and [m;; k] of stdpp are used for [bind]. *)
Global Instance M_ret `{Host} : MRet M := λ A, ret.
Global Instance M_bind `{Host} : MBind M := λ A B f m, bind m f.

(** Python truth value of an [Optional[str]]: [None] and [""] are false. *)
Definition truthy_str (s : option string) : bool :=
  match s with
  | None => false
  | Some s => negb (bool_decide (s = ""))
  end.

(** The application argument of the constructors: [Union[str, Application]]. *)
Inductive AppArg `{Host} :=
| ByName (n : string)
| ByHandle (a : Application).

(** ** The toolkit's [QAction] *)
Module QAction.
Section QAction.
Context `{Host}.

Definition update (self : Ref) (f : Action → Action) : M unit :=
  modify (upd self f).

(** [QAction.__new__(cls)]: a new wrapper, at an identity no object has. *)
Definition __new__ : M Ref :=
  λ w, let r := fresh (dom (heap w)) in
       (with_heap (insert r new_action) w, Ok r).

(** [QAction.__init__(self, parent)] *)
Definition __init__ (self : Ref) (parent : option Ref) : M unit :=
  modify (log (EvQActionInit self));;
  update self (with_qobject parent).

Definition setObjectName (self : Ref) (s : string) : M unit :=
  update self (with_objectName s).

Definition setShortcut (self : Ref) (s : string) : M unit :=
  update self (with_shortcut s).

(** [self.triggered.connect(self._on_triggered)] *)
Definition triggered_connect (self : Ref) : M unit :=
  update self with_triggered_slot.

Definition setText (self : Ref) (s : string) : M unit := update self (with_text s).
Definition setIcon (self : Ref) (i : string) : M unit := update self (with_icon i).
Definition setToolTip (self : Ref) (s : string) : M unit := update self (with_toolTip s).
Definition setStatusTip (self : Ref) (s : string) : M unit :=
  update self (with_statusTip s).
Definition setCheckable (self : Ref) (b : bool) : M unit :=
  update self (with_checkable b).
Definition setChecked (self : Ref) (b : bool) : M unit := update self (with_checked b).
Definition setEnabled (self : Ref) (b : bool) : M unit := update self (with_enabled b).
Definition setVisible (self : Ref) (b : bool) : M unit := update self (with_visible b).

(** [QAction::isEnabled()].  The toolkit couples the two properties:
    [setVisible(false)] also disables the action, [setEnabled(true)] does
    not enable an action that is hidden, and [setVisible(true)] enables it
    again unless [setEnabled(false)] was the last request.  With [enabled]
    and [visible] holding what the two setters were last given, the action
    is enabled exactly when both are true. *)
Definition isEnabled (o : Action) : bool := visible o && enabled o.

(** [QAction::isVisible()]: the actions of the module belong to no group,
    so it is what [setVisible] was last given. *)
Definition isVisible (o : Action) : bool := visible o.

(** [self.destroyed.connect(lambda: QMenuItemAction._cache.pop(key, None))] *)
Definition destroyed_connect (self : Ref) (key : Key) : M unit :=
  update self (with_destroyed_slot key).

End QAction.
End QAction.

(** ** Python attributes of the action objects *)
Section Attributes.
Context `{Host}.

Definition attribute_error (attr : string) : PyExc := mkExc AttributeError attr.

(** Reading an attribute that was never assigned raises [AttributeError]. *)
Definition getattr {A} (attr : string) (field : Action → option A) (self : Ref) : M A :=
  λ w, match field (obj w self) with
       | Some v => (w, Ok v)
       | None => (w, Raise (attribute_error attr))
       end.

Definition set__app (self : Ref) (v : Application) : M unit :=
  QAction.update self (with__app v).
Definition set__command_id (self : Ref) (v : string) : M unit :=
  QAction.update self (with__command_id v).
Definition set__cmd_rule (self : Ref) (v : CommandRule) : M unit :=
  QAction.update self (with__cmd_rule v).
Definition set__menu_item (self : Ref) (v : MenuItem) : M unit :=
  QAction.update self (with__menu_item v).
Definition set__initialized (self : Ref) (v : bool) : M unit :=
  QAction.update self (with__initialized v).

End Attributes.

(** ** The application registry *)
Module App.
Section App.
Context `{Host}.

(** Modelled from the spec: [Application.get_or_create], which lives in
    [app_model] outside this module; "idempotent resolution/creation of a
    named singleton application handle".  A handle created here has a new
    identity, no keybinding, no command and an injection store that leaves
    the callable as it is. *)
Definition create (n : string) (i : Z) : Application :=
  mkApplication i n (λ _, None) (λ c, Raise (mkExc KeyError c)) (λ f _, f).

Definition get_or_create (n : string) : M Application :=
  λ w, match instances w !! n with
       | Some a => (w, Ok a)
       | None =>
           let a := create n (next_id w) in
           (with_instances (insert n a) (next_id w + 1) w, Ok a)
       end.

(** [Application.get_or_create(app) if isinstance(app, str) else app] *)
Definition resolve (app : AppArg) : M Application :=
  match app with
  | ByName n => get_or_create n
  | ByHandle a => ret a
  end.

(** The handle [resolve app] returns in [w]. *)
Definition resolved (app : AppArg) (w : World) : Application :=
  match app with
  | ByName n => default (create n (next_id w)) (instances w !! n)
  | ByHandle a => a
  end.

(** [app.destroyed.connect(lambda: QMenuItemAction._cache.pop(key, None))] *)
Definition destroyed_connect (app : Application) (key : Key) : M unit :=
  modify (with_app_destroyed (λ s,
    <[app_id app := default [] (s !! app_id app) ++ [key]]> s)).

End App.
End App.

(** ** [class QCommandAction(QAction)] *)
Module QCommandAction.
Section QCommandAction.
Context `{Host}.

Definition __init__ (self : Ref) (command_id : string) (app : AppArg)
    (parent : option Ref) : M unit :=
  QAction.__init__ self parent;;
  a ← App.resolve app;
  set__app self a;;
  set__command_id self command_id;;
  QAction.setObjectName self command_id;;
  self_app ← getattr "_app" _app self;
  match get_keybinding self_app command_id with
  | Some kb => QAction.setShortcut self (QKeyBindingSequence (keybinding kb))
  | None => ret tt
  end;;
  QAction.triggered_connect self.

(** [self._app.commands.execute_command(self._command_id).result()] *)
Definition _on_triggered (self : Ref) (checked : bool) : M unit :=
  self_app ← getattr "_app" _app self;
  command_id ← getattr "_command_id" _command_id self;
  modify (log (EvExecuteCommand (app_id self_app) command_id));;
  future ← lift (execute_command self_app command_id);
  modify (log (EvResult (app_id self_app) command_id));;
  _ ← lift (result future);
  ret tt.

(** [QCommandAction(command_id, app, parent)] *)
Definition construct (command_id : string) (app : AppArg) (parent : option Ref) : M Ref :=
  self ← QAction.__new__;
  __init__ self command_id app parent;;
  ret self.

End QCommandAction.
End QCommandAction.

(** ** [class QCommandRuleAction(QCommandAction)] *)
Module QCommandRuleAction.
Section QCommandRuleAction.
Context `{Host}.

Definition _refresh (self : Ref) : M unit :=
  cmd_rule ← getattr "_cmd_rule" _cmd_rule self;
  match toggled cmd_rule with
  | Some (ToggledRule rule) =>
      match get_current rule with
      | Some get_current =>
          self_app ← getattr "_app" _app self;
          modify (log (EvInject (app_id self_app) get_current unresolved_ignore));;
          let _current := inject self_app get_current unresolved_ignore in
          modify (log (EvCall _current));;
          b ← lift (call _current);
          QAction.setChecked self b
      | None => ret tt
      end
  | _ => ret tt
  end.

Definition __init__ (self : Ref) (command_rule : CommandRule) (app : AppArg)
    (parent : option Ref) (use_short_title : bool) : M unit :=
  QCommandAction.__init__ self (id command_rule) app parent;;
  set__cmd_rule self command_rule;;
  (if use_short_title && truthy_str (short_title command_rule)
   then QAction.setText self (default "" (short_title command_rule))
   else QAction.setText self (title command_rule));;
  match icon command_rule with
  | Some i => QAction.setIcon self (to_qicon i)
  | None => ret tt
  end;;
  (if truthy_str (tooltip command_rule)
   then QAction.setToolTip self (default "" (tooltip command_rule))
   else ret tt);;
  (if truthy_str (status_tip command_rule)
   then QAction.setStatusTip self (default "" (status_tip command_rule))
   else ret tt);;
  match toggled command_rule with
  | Some _ => QAction.setCheckable self true;; _refresh self
  | None => ret tt
  end.

Definition update_from_context (self : Ref) (ctx : Ctx) : M unit :=
  cmd_rule ← getattr "_cmd_rule" _cmd_rule self;
  b ← match enablement cmd_rule with
      | Some expr => lift (eval expr ctx)
      | None => ret true
      end;
  QAction.setEnabled self b;;
  match toggled cmd_rule with
  | Some (ToggledExpr expr2) =>
      c ← lift (eval expr2 ctx);
      QAction.setChecked self c
  | Some (ToggledRule rule) =>
      match condition rule with
      | Some expr2 =>
          c ← lift (eval expr2 ctx);
          QAction.setChecked self c
      | None => ret tt
      end
  | None => ret tt
  end.

(** [QCommandRuleAction(command_rule, app, parent, use_short_title=...)] *)
Definition construct (command_rule : CommandRule) (app : AppArg)
    (parent : option Ref) (use_short_title : bool) : M Ref :=
  self ← QAction.__new__;
  __init__ self command_rule app parent use_short_title;;
  ret self.

End QCommandRuleAction.
End QCommandRuleAction.

(** ** [class QMenuItemAction(QCommandRuleAction)] *)
Module QMenuItemAction.
Section QMenuItemAction.
Context `{Host} `{!MenuItemHash}.

Definition __new__ (menu_item : MenuItem) (app : AppArg) (parent : option Ref)
    (cache : bool) : M Ref :=
  app ← App.resolve app;
  let key := (app_id app, hash menu_item) in
  (* [cache and key in cls._cache]: the dictionary is read only when
     [cache] is true *)
  cached ← (if cache then gets (λ w, _cache w !! key) else ret None);
  match cached with
  | Some inst => ret inst
  | None =>
      self ← QAction.__new__;
      (if cache then modify (with_cache (insert key self)) else ret tt);;
      ret self
  end.

(** [getattr(self, "_initialized", False)].  The default only covers a
    missing attribute; on a wrapper whose toolkit constructor has not run
    yet, the toolkit's attribute lookup raises [RuntimeError] instead. *)
Definition getattr_initialized (self : Ref) : M bool :=
  λ w, match _initialized (obj w self) with
       | Some b => (w, Ok b)
       | None =>
           if constructed (obj w self) then (w, Ok false)
           else (w, Raise (mkExc RuntimeError "super-class __init__() was never called"))
       end.

Definition update_from_context (self : Ref) (ctx : Ctx) : M unit :=
  QCommandRuleAction.update_from_context self ctx;;
  menu_item ← getattr "_menu_item" _menu_item self;
  b ← match when menu_item with
      | Some expr => lift (eval expr ctx)
      | None => ret true
      end;
  QAction.setVisible self b.

(** The block guarded by [if not initialized:] in [__init__]. *)
Definition initialize (self : Ref) (menu_item : MenuItem) (app : AppArg)
    (parent : option Ref) : M unit :=
  QCommandRuleAction.__init__ self (command menu_item) app parent false;;
  set__menu_item self menu_item;;
  self_app ← getattr "_app" _app self;
  let key := (app_id self_app, hash menu_item) in
  QAction.destroyed_connect self key;;
  self_app ← getattr "_app" _app self;
  App.destroyed_connect self_app key;;
  set__initialized self true.

Definition __init__ (self : Ref) (menu_item : MenuItem) (app : AppArg)
    (parent : option Ref) (cache : bool) : M unit :=
  initialized ← suppress_or RuntimeError false (getattr_initialized self);
  (if negb initialized then initialize self menu_item app parent else ret tt);;
  suppress NameError (update_from_context self ∅).

(** [QMenuItemAction(menu_item, app, parent, cache=...)]: [__new__], then
    [__init__] on what it returned. *)
Definition construct (menu_item : MenuItem) (app : AppArg) (parent : option Ref)
    (cache : bool) : M Ref :=
  self ← __new__ menu_item app parent cache;
  __init__ self menu_item app parent cache;;
  ret self.

(** The slot [lambda: QMenuItemAction._cache.pop(key, None)]. *)
Definition pop_slot (key : Key) : M (option Ref) :=
  λ w, (with_cache (delete key) w, Ok (_cache w !! key)).

Fixpoint run_slots (slots : list Key) : M unit :=
  match slots with
  | [] => ret tt
  | key :: rest => pop_slot key;; run_slots rest
  end.

(** The toolkit emits [self.destroyed]: every connected slot runs. *)
Definition destroy (self : Ref) : M unit :=
  slots ← gets (λ w, destroyed_slots (obj w self));
  run_slots slots.

(** The application emits [app.destroyed]. *)
Definition destroy_app (app : Application) : M unit :=
  slots ← gets (λ w, default [] (app_destroyed w !! app_id app));
  run_slots slots.

(** The cache key a construction with these arguments computes in [w]. *)
Definition key_of (menu_item : MenuItem) (app : AppArg) (w : World) : Key :=
  (app_id (App.resolved app w), hash menu_item).

End QMenuItemAction.
End QMenuItemAction.

(** ** A concrete host, for running the embedding *)
Module Sample.

(** Modelled from the spec: the expression engine is outside this module;
    "a small tagged-variant expression tree (literal, variable lookup,
    boolean combinators) with a pure evaluate(context) -> bool operation",
    where a variable the context lacks makes evaluation fail.  [Div] is the
    one arithmetic form kept, to have a failure that is not a missing
    variable. *)
Inductive expr :=
| Constant (b : bool)
| Name (x : string)
| Not (e : expr)
| And (e1 e2 : expr)
| Or (e1 e2 : expr)
| Div (n d : Z).

Definition truth (v : PyObject) : bool :=
  match v with
  | PyNone => false
  | PyBool b => b
  | PyInt z => negb (z =? 0)
  | PyStr s => negb (bool_decide (s = ""))
  end.

Fixpoint eval_expr (e : expr) (ctx : Ctx) : Result bool :=
  match e with
  | Constant b => Ok b
  | Name x =>
      match ctx !! x with
      | Some v => Ok (truth v)
      | None => Raise (mkExc NameError x)
      end
  | Not e =>
      match eval_expr e ctx with
      | Ok b => Ok (negb b)
      | Raise err => Raise err
      end
  | And e1 e2 =>
      match eval_expr e1 ctx with
      | Ok true => eval_expr e2 ctx
      | other => other
      end
  | Or e1 e2 =>
      match eval_expr e1 ctx with
      | Ok false => eval_expr e2 ctx
      | other => other
      end
  | Div n d =>
      if d =? 0 then Raise (mkExc ZeroDivisionError "division by zero")
      else Ok (negb (n / d =? 0))
  end.

(** A provider either returns a boolean or raises. *)
Inductive provider :=
| Returns (b : bool)
| Raises (e : PyExc).

Definition call_provider (p : provider) : Result bool :=
  match p with
  | Returns b => Ok b
  | Raises e => Raise e
  end.

Global Instance host : Host :=
  {| Expr := expr; eval := eval_expr; Callable := provider; call := call_provider;
     QKeyBindingSequence := λ s, s; to_qicon := λ s, s |}.

Definition hash_expr (e : option expr) : Z :=
  match e with
  | None => 0
  | Some (Constant true) => 1
  | Some (Constant false) => 2
  | Some _ => 3
  end.

(** A structural hash that separates the descriptors used below. *)
Global Instance menu_item_hash : MenuItemHash :=
  λ m, Z.of_nat (String.length (id (command m))) * 4 + hash_expr (when m).

Definition empty_world : World :=
  {| instances := ∅; next_id := 1; _cache := ∅; heap := ∅;
     app_destroyed := ∅; trace := [] |}.

Definition rule (toggle : option Toggled) (enable : option expr) : CommandRule :=
  {| id := "file.open"; title := "Open"; short_title := None; icon := None;
     tooltip := Some "Open a file"; status_tip := None;
     enablement := enable; toggled := toggle |}.

Definition item (toggle : option Toggled) (enable when_ : option expr) : MenuItem :=
  {| command := rule toggle enable; when := when_; group := None; order := None |}.

Definition commands (c : string) : Result Future :=
  if bool_decide (c = "file.open") then Ok (mkFuture (Ok PyNone))
  else if bool_decide (c = "file.fail")
       then Ok (mkFuture (Raise (mkExc ValueError "cannot open")))
       else Raise (mkExc KeyError c).

Definition main_app : Application :=
  {| app_id := 7; name := "main";
     get_keybinding := λ c, if bool_decide (c = "file.open")
                            then Some (mkKeyBindingRule "Ctrl+O") else None;
     execute_command := commands;
     inject := λ f _, f |}.

(** The stores and descriptors the examples run on. *)

(** A command action bound to a command whose execution fails. *)
Definition w_command : World :=
  exec (QCommandAction.construct "file.fail" (ByHandle main_app) None) empty_world.

(** A command rule enabled by [on] and toggled by the bare expression [x]. *)
Definition expr_rule : CommandRule :=
  rule (Some (ToggledExpr (Name "x"))) (Some (Name "on")).

Definition w_expr_rule : World :=
  exec (QCommandRuleAction.construct expr_rule (ByHandle main_app) None false)
    empty_world.

Definition ctx_checked_disabled : Ctx :=
  <["x" := PyBool true]> (<["on" := PyBool false]> ∅).

Definition ctx_unchecked : Ctx :=
  <["x" := PyBool false]> (<["on" := PyBool true]> ∅).

(** A provider-only toggle rule. *)
Definition provider_toggle (g : provider) : ToggleRule :=
  {| condition := None; get_current := Some g |}.

Definition provider_rule (g : provider) : CommandRule :=
  rule (Some (ToggledRule (provider_toggle g))) None.

Definition w_provider_rule : World :=
  exec (QCommandRuleAction.construct (provider_rule (Returns true))
          (ByHandle main_app) None false) empty_world.

(** A menu item that is always hidden, with a constant toggle. *)
Definition hidden_item : MenuItem :=
  item (Some (ToggledExpr (Constant true))) None (Some (Constant false)).

(** The same, toggled by a context key. *)
Definition hidden_keyed_item : MenuItem :=
  item (Some (ToggledExpr (Name "x"))) None (Some (Constant false)).

(** A menu item all of whose expressions read context keys. *)
Definition keyed_item : MenuItem :=
  item (Some (ToggledExpr (Name "x"))) (Some (Name "on")) (Some (Name "shown")).

(** A menu item whose provider raises. *)
Definition failing_item : MenuItem :=
  {| command := provider_rule (Raises (mkExc ValueError "no current value"));
     when := None; group := None; order := None |}.

Definition handle : AppArg := ByHandle main_app.

(** A menu item that is always disabled. *)
Definition disabled_item : MenuItem :=
  item None (Some (Constant false)) None.

(** A menu item whose command has a short title. *)
Definition short_titled_item : MenuItem :=
  {| command := {| id := "edit.copy"; title := "Copy selection";
                   short_title := Some "Copy"; icon := Some "copy.svg";
                   tooltip := None; status_tip := Some "Copy the selection";
                   enablement := None; toggled := None |};
     when := None; group := None; order := None |}.

(** A menu item whose [when] clause fails with something else than a
    missing name. *)
Definition dividing_item : MenuItem := item None None (Some (Div 1 0)).


(** The store after one cached construction of [keyed_item]. *)
Definition w_keyed : World :=
  exec (QMenuItemAction.construct keyed_item handle None true) empty_world.

(** The store after one cached construction of [hidden_item]. *)
Definition w_hidden : World :=
  exec (QMenuItemAction.construct hidden_item handle None true) empty_world.

Definition ctx_shown_disabled : Ctx :=
  <["shown" := PyBool true]> ctx_checked_disabled.

Definition ctx_hidden_enabled : Ctx :=
  <["shown" := PyBool false]> ctx_unchecked.

End Sample.

(** ** What is observed of a run *)
Section Observations.
Context `{Host} `{!MenuItemHash}.

(** [preserves R m]: whatever [m] returns or raises, the store it leaves
    is related by [R] to the store it started from. *)
Definition preserves {A} (R : relation World) (m : M A) : Prop :=
  ∀ w, R w (exec m w).

Definition same_cache : relation World := λ w w', _cache w' = _cache w.
Definition same_slots : relation World := λ w w', app_destroyed w' = app_destroyed w.
Definition same_trace : relation World := λ w w', trace w' = trace w.
Definition same_registry : relation World :=
  λ w w', instances w' = instances w ∧ next_id w' = next_id w.
Definition same_field {B} (f : Action → B) (r : Ref) : relation World :=
  λ w w', f (obj w' r) = f (obj w r).
Definition same_others (self : Ref) : relation World :=
  λ w w', ∀ r, r ≠ self → obj w' r = obj w r.
Definition grows : relation World := λ w w', dom (heap w) ⊆ dom (heap w').

(** The provider [_refresh] consults: [toggled.get_current] of a
    [ToggleRule]. *)
Definition provider_of (rule : CommandRule) : option Callable :=
  match toggled rule with
  | Some (ToggledRule r) => get_current r
  | _ => None
  end.

(** The expression [update_from_context] evaluates for the checked state. *)
Definition condition_of (rule : CommandRule) : option Expr :=
  match toggled rule with
  | Some (ToggledExpr e) => Some e
  | Some (ToggledRule r) => condition r
  | None => None
  end.

(** The calls [_refresh] makes to the injection store and the provider. *)
Definition provider_events (a : Application) (rule : CommandRule) : list Event :=
  match provider_of rule with
  | Some g => [EvInject (app_id a) g unresolved_ignore;
               EvCall (inject a g unresolved_ignore)]
  | None => []
  end.

Definition provider_result (a : Application) (rule : CommandRule) : Result (option bool) :=
  match provider_of rule with
  | Some g =>
      match call (inject a g unresolved_ignore) with
      | Ok b => Ok (Some b)
      | Raise e => Raise e
      end
  | None => Ok None
  end.

(** Value of an optional expression, [True] when there is none. *)
Definition eval_or_true (e : option Expr) (ctx : Ctx) : Result bool :=
  match e with
  | Some e => eval e ctx
  | None => Ok true
  end.

(** The expressions a menu item carries. *)
Definition exprs_of (m : MenuItem) : list Expr :=
  option_list (enablement (command m)) ++ option_list (condition_of (command m))
  ++ option_list (when m).

(** The only way [e] fails under the empty context is a missing name. *)
Definition fails_only_on_names (e : Expr) : Prop :=
  ∀ err, eval e ∅ = Raise err → issubclass (exc_class err) NameError = true.

(** The action behind [r] was initialised from [m]. *)
Definition built_from (m : MenuItem) (o : Action) : Prop :=
  _menu_item o = Some m ∧ _cmd_rule o = Some (command m).

Definition is_init (self : Ref) (ev : Event) : bool :=
  match ev with
  | EvQActionInit r => bool_decide (r = self)
  | _ => false
  end.

(** How many times the toolkit constructor was called on [self]: once per
    run of the command-rule initialiser. *)
Definition init_calls (self : Ref) (w : World) : nat :=
  length (List.filter (is_init self) (trace w)).

(** The arguments of one [__init__] invocation. *)
Record InitArgs := mkInitArgs {
  arg_menu_item : MenuItem;
  arg_app : AppArg;
  arg_parent : option Ref;
  arg_cache : bool;
}.

(** [__init__] invoked on [self] once per element of [calls], each
    invocation a statement of its own: what one raises does not stop the
    next. *)
Fixpoint invoke_all (self : Ref) (calls : list InitArgs) (w : World) : World :=
  match calls with
  | [] => w
  | c :: rest =>
      invoke_all self rest
        (exec (QMenuItemAction.__init__ self (arg_menu_item c) (arg_app c)
                 (arg_parent c) (arg_cache c)) w)
  end.

(** Which of the two [destroyed] signals fire, and in which order. *)
Inductive Teardown :=
| ActionDestroyed
| AppDestroyed
| ActionThenApp
| AppThenAction.

Definition teardown (t : Teardown) (self : Ref) (app : Application) : M unit :=
  match t with
  | ActionDestroyed => QMenuItemAction.destroy self
  | AppDestroyed => QMenuItemAction.destroy_app app
  | ActionThenApp => QMenuItemAction.destroy self;; QMenuItemAction.destroy_app app
  | AppThenAction => QMenuItemAction.destroy_app app;; QMenuItemAction.destroy self
  end.

(** The first exception [QMenuItemAction.update_from_context] meets under
    [ctx]: the expressions are evaluated in the order enablement, toggle
    condition, [when], and the first failure ends the update. *)
Definition first_failure (m : MenuItem) (ctx : Ctx) : option PyExc :=
  match eval_or_true (enablement (command m)) ctx with
  | Raise err => Some err
  | Ok _ =>
      match eval_or_true (condition_of (command m)) ctx with
      | Raise err => Some err
      | Ok _ =>
          match eval_or_true (when m) ctx with
          | Raise err => Some err
          | Ok _ => None
          end
      end
  end.

(** What [with contextlib.suppress(cls)] makes of a failure. *)
Definition suppressed (cls : ExcClass) (failure : option PyExc) : Result unit :=
  match failure with
  | Some err => if issubclass (exc_class err) cls then Ok tt else Raise err
  | None => Ok tt
  end.

End Observations.

(** * Properties *)

Section Frames.
Context `{Host}.

Global Instance same_cache_po : PreOrder same_cache.
Proof. split; [intros x | intros x y z]; unfold same_cache; congruence. Qed.
Global Instance same_slots_po : PreOrder same_slots.
Proof. split; [intros x | intros x y z]; unfold same_slots; congruence. Qed.
Global Instance same_trace_po : PreOrder same_trace.
Proof. split; [intros x | intros x y z]; unfold same_trace; congruence. Qed.
Global Instance same_registry_po : PreOrder same_registry.
Proof.
  split; [intros x; by split |].
  intros x y z [? ?] [? ?]; unfold same_registry; split; congruence.
Qed.
Global Instance same_field_po {B} (f : Action → B) r : PreOrder (same_field f r).
Proof. split; [intros x | intros x y z]; unfold same_field; congruence. Qed.
Global Instance same_others_po self : PreOrder (same_others self).
Proof.
  split; [by intros x r Hr |]. intros x y z Hxy Hyz r Hr. rewrite Hyz, Hxy; done.
Qed.
Global Instance grows_po : PreOrder grows.
Proof. split; [intros x | intros x y z]; unfold grows; set_solver. Qed.

Lemma obj_upd_eq self f w : obj (upd self f w) self = f (obj w self).
Proof. unfold obj, upd; simpl. apply lookup_total_insert_eq. Qed.

Lemma obj_upd_ne self r f w : self ≠ r → obj (upd self f w) r = obj w r.
Proof. intros Hne. unfold obj, upd; simpl. by apply lookup_total_insert_ne. Qed.

Lemma dom_upd self f w : dom (heap (upd self f w)) = {[self]} ∪ dom (heap w).
Proof. unfold upd; simpl. apply dom_insert_L. Qed.

(** What the other store operations leave alone. *)
Lemma obj_log ev w r : obj (log ev w) r = obj w r.
Proof. done. Qed.
Lemma obj_with_cache f w r : obj (with_cache f w) r = obj w r.
Proof. done. Qed.
Lemma obj_with_app_destroyed f w r : obj (with_app_destroyed f w) r = obj w r.
Proof. done. Qed.
Lemma obj_with_instances f n w r : obj (with_instances f n w) r = obj w r.
Proof. done. Qed.
Lemma cache_upd self f w : _cache (upd self f w) = _cache w.
Proof. done. Qed.
Lemma trace_upd self f w : trace (upd self f w) = trace w.
Proof. done. Qed.
Lemma slots_upd self f w : app_destroyed (upd self f w) = app_destroyed w.
Proof. done. Qed.
Lemma instances_upd self f w : instances (upd self f w) = instances w.
Proof. done. Qed.
Lemma next_id_upd self f w : next_id (upd self f w) = next_id w.
Proof. done. Qed.

Lemma preserves_ret {A} R `{!Reflexive R} (a : A) : preserves R (ret a).
Proof. intros w. apply reflexivity. Qed.

Lemma preserves_lift {A} R `{!Reflexive R} (r : Result A) : preserves R (lift r).
Proof. intros w. apply reflexivity. Qed.

Lemma preserves_gets {A} R `{!Reflexive R} (f : World → A) : preserves R (gets f).
Proof. intros w. apply reflexivity. Qed.

Lemma preserves_getattr {A} R `{!Reflexive R} attr (field : Action → option A) self :
  preserves R (getattr attr field self).
Proof.
  intros w. unfold exec, getattr. destruct (field (obj w self)); apply reflexivity.
Qed.

Lemma preserves_modify R (f : World → World) : (∀ w, R w (f w)) → preserves R (modify f).
Proof. intros Hf w. apply Hf. Qed.

Lemma preserves_bind {A B} R `{!Transitive R} (m : M A) (f : A → M B) :
  preserves R m → (∀ a, preserves R (f a)) → preserves R (m ≫= f).
Proof.
  intros Hm Hf w. specialize (Hm w). unfold exec, mbind, M_bind, bind in *.
  destruct (m w) as [w1 [a | e]]; simpl in *; [| done].
  etrans; [exact Hm | apply Hf].
Qed.

Lemma preserves_suppress_or {A} R cls (d : A) (m : M A) :
  preserves R m → preserves R (suppress_or cls d m).
Proof.
  intros Hm w. specialize (Hm w). unfold exec, suppress_or in *.
  destruct (m w) as [w1 [a | e]]; simpl in *; [done |].
  by destruct (issubclass _ _).
Qed.

Lemma preserves_suppress R cls (m : M unit) :
  preserves R m → preserves R (suppress cls m).
Proof. apply preserves_suppress_or. Qed.

(** A mutation of [self] keeps every field of every object that the
    mutation does not write. *)
Lemma same_field_upd {B} (g : Action → B) r self f w :
  (∀ a, g (f a) = g a) → same_field g r w (upd self f w).
Proof.
  intros Hg. unfold same_field. destruct (decide (self = r)) as [-> | Hne].
  - by rewrite obj_upd_eq.
  - by rewrite obj_upd_ne.
Qed.

Lemma same_others_upd self f w : same_others self w (upd self f w).
Proof. intros r Hr. by rewrite obj_upd_ne. Qed.

Lemma grows_upd self f w : grows w (upd self f w).
Proof. unfold grows. rewrite dom_upd. set_solver. Qed.

Lemma preserves_resolve R `{!Reflexive R} app :
  (∀ f n w, R w (with_instances f n w)) → preserves R (App.resolve app).
Proof.
  intros HR w. unfold exec, App.resolve, App.get_or_create.
  destruct app as [n | a]; [| apply reflexivity].
  destruct (instances w !! n); [apply reflexivity | apply HR].
Qed.

Lemma preserves_getattr_initialized R `{!Reflexive R} self :
  preserves R (QMenuItemAction.getattr_initialized self).
Proof.
  intros w. unfold exec, QMenuItemAction.getattr_initialized.
  destruct (_initialized (obj w self)); [apply reflexivity |].
  destruct (constructed (obj w self)); apply reflexivity.
Qed.

End Frames.

Create Rewrite HintDb world.
#[global] Hint Rewrite @obj_upd_eq @obj_log @obj_with_cache @obj_with_app_destroyed
  @obj_with_instances @cache_upd @trace_upd @slots_upd @instances_upd
  @next_id_upd : world.

Arguments upd : simpl never.
Arguments obj : simpl never.
Arguments truthy_str : simpl never.

(** ** Frame automation *)

Ltac unfold_setters :=
  unfold QAction.__init__, QAction.setObjectName, QAction.setShortcut,
    QAction.triggered_connect, QAction.setText, QAction.setIcon,
    QAction.setToolTip, QAction.setStatusTip, QAction.setCheckable,
    QAction.setChecked, QAction.setEnabled, QAction.setVisible,
    QAction.destroyed_connect, set__app, set__command_id, set__cmd_rule,
    set__menu_item, set__initialized, App.destroyed_connect, QAction.update.

Ltac unfold_methods :=
  unfold QMenuItemAction.__init__, QMenuItemAction.initialize,
    QMenuItemAction.update_from_context, QCommandRuleAction.__init__,
    QCommandRuleAction.update_from_context, QCommandRuleAction._refresh,
    QCommandAction.__init__, QCommandAction._on_triggered.

Ltac frame_leaf :=
  first
    [ apply same_field_upd; intros; reflexivity
    | apply same_others_upd
    | apply grows_upd
    | reflexivity
    | split; reflexivity
    | intros ? ?; reflexivity
    | unfold grows; cbn; reflexivity ].

Ltac frame_step :=
  first
    [ apply preserves_ret; apply _
    | apply preserves_lift; apply _
    | apply preserves_gets; apply _
    | apply preserves_getattr; apply _
    | apply preserves_getattr_initialized; apply _
    | apply preserves_resolve; [ apply _ | intros ? ? ?; frame_leaf ]
    | apply preserves_suppress
    | apply preserves_suppress_or
    | apply preserves_modify; intros ?; frame_leaf
    | apply preserves_bind; [ apply _ | | intros ? ]
    | match goal with
      | |- preserves _ (match ?x with _ => _ end) => destruct x
      | |- preserves _ (let _ := _ in _) => cbv zeta
      end ].

Ltac frame := unfold_methods; unfold_setters; repeat frame_step.

Section MethodFrames.
Context `{Host} `{!MenuItemHash}.

Lemma rule_update_frame self ctx :
  let m := QCommandRuleAction.update_from_context self ctx in
  preserves same_cache m ∧ preserves same_trace m ∧ preserves same_slots m
  ∧ preserves same_registry m ∧ preserves grows m
  ∧ preserves (same_others self) m
  ∧ (∀ r, preserves (same_field _initialized r) m)
  ∧ (∀ r, preserves (same_field _menu_item r) m)
  ∧ (∀ r, preserves (same_field _cmd_rule r) m)
  ∧ (∀ r, preserves (same_field _app r) m)
  ∧ (∀ r, preserves (same_field destroyed_slots r) m)
  ∧ (∀ r, preserves (same_field visible r) m)
  ∧ (∀ r, preserves (same_field checkable r) m).
Proof. cbv zeta. split_and!; intros; frame. Qed.

End MethodFrames.

(** ** Running a method on a symbolic store *)

Ltac run_unfold :=
  unfold exec, value, mbind, M_bind, bind, mret, M_ret, ret, modify, gets,
    lift, getattr, suppress, suppress_or in *.

Ltac run := unfold_methods; unfold_setters; run_unfold; cbn.

(** Reduce as far as the reads of [self] allow. *)
Ltac sym := repeat (progress (cbn; autorewrite with world)).

Section Activation.
Context `{Host}.

(** C6.  One activation of a command action (one call of [_on_triggered])
    calls [execute_command] exactly once, with exactly the bound command
    id; the returned future is resolved at once; and whatever that
    resolution raises is what the handler raises, the same exception.
    Nothing else in the store moves. *)
Theorem on_triggered_executes_and_propagates self checked w app command_id :
  _app (obj w self) = Some app →
  _command_id (obj w self) = Some command_id →
  let handler := QCommandAction._on_triggered self checked in
  trace (exec handler w)
    = trace w ++ EvExecuteCommand (app_id app) command_id ::
        match execute_command app command_id with
        | Ok _ => [EvResult (app_id app) command_id]
        | Raise _ => []
        end
  ∧ (∀ future, execute_command app command_id = Ok future →
       value handler w = match result future with
                         | Ok _ => Ok tt
                         | Raise e => Raise e
                         end)
  ∧ (∀ future e, execute_command app command_id = Ok future →
       result future = Raise e → value handler w = Raise e)
  ∧ (∀ e, execute_command app command_id = Raise e → value handler w = Raise e)
  ∧ heap (exec handler w) = heap w
  ∧ _cache (exec handler w) = _cache w.
Proof.
  intros Happ Hid handler. subst handler. run. rewrite Happ, Hid. cbn.
  destruct (execute_command app command_id) as [future | e0] eqn:Hexe; cbn.
  - destruct (result future) as [v | e1] eqn:Hres; cbn.
    + split_and!; try done.
      * rewrite <- app_assoc. done.
      * intros f [= <-]. by rewrite Hres.
      * intros f e [= <-]. congruence.
    + split_and!; try done.
      * rewrite <- app_assoc. done.
      * intros f [= <-]. by rewrite Hres.
      * intros f e [= <-]. congruence.
  - split_and!; try done. intros e [= <-]. done.
Qed.

End Activation.

Section ContextUpdates.
Context `{Host} `{!MenuItemHash}.

Lemma with_enabled_same (o : Action) : with_enabled (enabled o) o = o.
Proof. by destruct o. Qed.

Lemma with_visible_same (o : Action) : with_visible (visible o) o = o.
Proof. by destruct o. Qed.

(** One call of the command-rule [update_from_context], when both
    evaluations return. *)
Lemma rule_update_run self ctx rule w b :
  _cmd_rule (obj w self) = Some rule →
  eval_or_true (enablement rule) ctx = Ok b →
  match condition_of rule with
  | Some e =>
      match eval e ctx with
      | Ok c =>
          QCommandRuleAction.update_from_context self ctx w
          = (upd self (with_checked c) (upd self (with_enabled b) w), Ok tt)
      | Raise err =>
          QCommandRuleAction.update_from_context self ctx w
          = (upd self (with_enabled b) w, Raise err)
      end
  | None =>
      QCommandRuleAction.update_from_context self ctx w
      = (upd self (with_enabled b) w, Ok tt)
  end.
Proof.
  intros Hrule Hen. unfold condition_of, eval_or_true in *. run. rewrite Hrule.
  destruct (enablement rule) as [e |]; [rewrite Hen | injection Hen as <-]; cbn.
  all: destruct (toggled rule) as [[E | tr] |]; cbn; try done.
  all: try (destruct (eval E ctx); done).
  all: destruct (condition tr) as [E |]; cbn; try done.
  all: destruct (eval E ctx); done.
Qed.

(** When the enablement expression raises, the call stops there. *)
Lemma rule_update_raise self ctx rule w e err :
  _cmd_rule (obj w self) = Some rule →
  enablement rule = Some e → eval e ctx = Raise err →
  QCommandRuleAction.update_from_context self ctx w = (w, Raise err).
Proof. intros Hrule Hen Hev. run. by rewrite Hrule, Hen, Hev. Qed.

(** C3.  [update_from_context(ctx)] sets [enabled] to the value of the
    enablement expression under [ctx], and to true when there is none;
    for a bare toggle expression [E] it sets [checked] to the value of [E]
    under [ctx], whatever [enabled] was set to (so an action can be
    disabled and checked); and a second call sets [checked] to the value
    under the second context: the last write wins. *)
Theorem update_from_context_sets_enabled_and_checked self ctx rule w :
  _cmd_rule (obj w self) = Some rule →
  let update := QCommandRuleAction.update_from_context self in
  let w' := exec (update ctx) w in
  (enablement rule = None → enabled (obj w' self) = true)
  ∧ (∀ e b, enablement rule = Some e → eval e ctx = Ok b →
       enabled (obj w' self) = b)
  ∧ (∀ E b c, toggled rule = Some (ToggledExpr E) →
       eval_or_true (enablement rule) ctx = Ok b → eval E ctx = Ok c →
       value (update ctx) w = Ok tt
       ∧ enabled (obj w' self) = b ∧ checked (obj w' self) = c)
  ∧ (∀ E ctx2 b2 c2, toggled rule = Some (ToggledExpr E) →
       eval_or_true (enablement rule) ctx2 = Ok b2 → eval E ctx2 = Ok c2 →
       checked (obj (exec (update ctx2) w') self) = c2
       ∧ enabled (obj (exec (update ctx2) w') self) = b2).
Proof.
  intros Hrule update w'.
  assert (Hen : ∀ b, eval_or_true (enablement rule) ctx = Ok b →
                     enabled (obj w' self) = b).
  { intros b Hb. pose proof (rule_update_run self ctx rule w b Hrule Hb) as Hrun.
    subst w' update. unfold exec.
    destruct (condition_of rule) as [e |]; [destruct (eval e ctx) |];
      rewrite Hrun; cbn; rewrite ?obj_upd_eq; done. }
  assert (Hch : ∀ w0 ctx0 E b c, _cmd_rule (obj w0 self) = Some rule →
            toggled rule = Some (ToggledExpr E) →
            eval_or_true (enablement rule) ctx0 = Ok b → eval E ctx0 = Ok c →
            value (update ctx0) w0 = Ok tt
            ∧ enabled (obj (exec (update ctx0) w0) self) = b
            ∧ checked (obj (exec (update ctx0) w0) self) = c).
  { intros w0 ctx0 E b c Hr0 Htog Hb Hc.
    pose proof (rule_update_run self ctx0 rule w0 b Hr0 Hb) as Hrun.
    unfold condition_of in Hrun. rewrite Htog, Hc in Hrun.
    subst update. unfold exec, value. rewrite Hrun; cbn.
    rewrite !obj_upd_eq. done. }
  split_and!.
  - intros Hnone. apply Hen. by rewrite Hnone.
  - intros e b He Hb. apply Hen. by rewrite He.
  - intros E b c. by apply Hch.
  - intros E ctx2 b2 c2 Htog Hb Hc.
    assert (Hrule' : _cmd_rule (obj w' self) = Some rule).
    { pose proof (rule_update_frame self ctx) as Hf. cbv zeta in Hf.
      destruct Hf as (_ & _ & _ & _ & _ & _ & _ & _ & Hf & _).
      subst w' update. rewrite (Hf self w). done. }
    destruct (Hch w' ctx2 E b2 c2 Hrule' Htog Hb Hc) as (_ & ? & ?). done.
Qed.

(** C9.  With a provider-only toggle rule (a [ToggleRule] without
    condition), [update_from_context] leaves [checked] as it was: the
    command-rule version changes nothing but [enabled], the menu-item
    version nothing but [enabled] and [visible]; no other object and no
    cache entry is touched. *)
Theorem provider_only_toggle_keeps_checked self ctx rule tr w :
  _cmd_rule (obj w self) = Some rule →
  toggled rule = Some (ToggledRule tr) →
  condition tr = None →
  (let w' := exec (QCommandRuleAction.update_from_context self ctx) w in
   checked (obj w' self) = checked (obj w self)
   ∧ (∃ b, obj w' self = with_enabled b (obj w self))
   ∧ (∀ r, r ≠ self → obj w' r = obj w r)
   ∧ _cache w' = _cache w)
  ∧ (let w' := exec (QMenuItemAction.update_from_context self ctx) w in
     checked (obj w' self) = checked (obj w self)
     ∧ (∃ b v, obj w' self
               = with_visible v (with_enabled b (obj w self)))
     ∧ (∀ r, r ≠ self → obj w' r = obj w r)
     ∧ _cache w' = _cache w).
Proof.
  intros Hrule Htog Hcond.
  assert (Hrun : ∀ b, eval_or_true (enablement rule) ctx = Ok b →
            QCommandRuleAction.update_from_context self ctx w
            = (upd self (with_enabled b) w, Ok tt)).
  { intros b Hb. pose proof (rule_update_run self ctx rule w b Hrule Hb) as Hr.
    unfold condition_of in Hr. by rewrite Htog, Hcond in Hr. }
  assert (Hraise : ∀ err, eval_or_true (enablement rule) ctx = Raise err →
            QCommandRuleAction.update_from_context self ctx w = (w, Raise err)).
  { intros err Herr. unfold eval_or_true in Herr.
    destruct (enablement rule) as [e |] eqn:He; [| done].
    by eapply rule_update_raise. }
  split; cbv zeta.
  - destruct (eval_or_true (enablement rule) ctx) as [b | err] eqn:Hen.
    + unfold exec. rewrite (Hrun b eq_refl); cbn. rewrite obj_upd_eq.
      split_and!; [done | by exists b | | done].
      intros r Hr. by rewrite obj_upd_ne.
    + unfold exec. rewrite (Hraise err eq_refl); cbn.
      split_and!; [done | | done | done].
      exists (enabled (obj w self)). by rewrite with_enabled_same.
  - unfold QMenuItemAction.update_from_context.
    destruct (eval_or_true (enablement rule) ctx) as [b | err] eqn:Hen.
    + unfold exec, mbind, M_bind, bind. rewrite (Hrun b eq_refl).
      run. destruct (_menu_item (obj _ self)) as [m |]; cbn.
      * destruct (when m) as [e |]; cbn;
          [destruct (eval e ctx) eqn:? |]; cbn;
          rewrite ?obj_upd_eq; (split_and!;
            [ done
            | first [ by eexists _, _
                    | exists b, (visible (obj w self));
                      by destruct (obj w self) ]
            | intros r Hr; by rewrite ?obj_upd_ne
            | done ]).
      * rewrite ?obj_upd_eq. split_and!; [done | | | done].
        -- exists b, (visible (obj w self)). by destruct (obj w self).
        -- intros r Hr. by rewrite obj_upd_ne.
    + unfold exec, mbind, M_bind, bind. rewrite (Hraise err eq_refl); cbn.
      split_and!; [done | | done | done].
      exists (enabled (obj w self)), (visible (obj w self)).
      by rewrite with_enabled_same, with_visible_same.
Qed.

End ContextUpdates.

(** ** The initialisers *)
Section Initialisers.
Context `{Host} `{!MenuItemHash}.

Lemma run_eq {A} (m : M A) w : m w = (exec m w, value m w).
Proof. unfold exec, value. by destruct (m w). Qed.

(** A step that cannot raise hands its store to what follows. *)
Lemma seq_ok {B} (s : M unit) (k : M B) w :
  value s w = Ok tt → (s;; k) w = k (exec s w).
Proof.
  intros Hs. unfold mbind, M_bind, bind. rewrite (run_eq s w), Hs. done.
Qed.

Lemma bind_ok {A B} (s : M A) (k : A → M B) w a :
  value s w = Ok a → (s ≫= k) w = k a (exec s w).
Proof.
  intros Hs. unfold mbind, M_bind, bind. rewrite (run_eq s w), Hs. done.
Qed.

Lemma bind_raise {A B} (s : M A) (k : A → M B) w e :
  value s w = Raise e → (s ≫= k) w = (exec s w, Raise e).
Proof.
  intros Hs. unfold mbind, M_bind, bind. rewrite (run_eq s w), Hs. done.
Qed.

Lemma resolve_run app w :
  App.resolve app w = (exec (App.resolve app) w, Ok (App.resolved app w)).
Proof.
  unfold exec, App.resolve, App.resolved, App.get_or_create.
  destruct app as [n | a]; [| done]. by destruct (instances w !! n).
Qed.

Lemma resolved_same_registry app w w' :
  same_registry w w' → App.resolved app w' = App.resolved app w.
Proof.
  intros [Hi Hn]. unfold App.resolved. destruct app; [| done]. by rewrite Hi, Hn.
Qed.

(** [get_or_create] is idempotent: resolving again returns the same handle
    and changes nothing. *)
Lemma resolve_idempotent app w :
  let w1 := exec (App.resolve app) w in
  App.resolved app w1 = App.resolved app w ∧ exec (App.resolve app) w1 = w1.
Proof.
  unfold exec, App.resolve, App.resolved, App.get_or_create.
  destruct app as [n | a]; [| done].
  destruct (instances w !! n) as [a |] eqn:Hn; cbn.
  - by rewrite Hn.
  - by rewrite lookup_insert_eq.
Qed.

Lemma resolved_upd app self f w : App.resolved app (upd self f w) = App.resolved app w.
Proof. by apply resolved_same_registry. Qed.

Lemma resolved_log app ev w : App.resolved app (log ev w) = App.resolved app w.
Proof. by apply resolved_same_registry. Qed.

Lemma resolved_with_cache app f w :
  App.resolved app (with_cache f w) = App.resolved app w.
Proof. by apply resolved_same_registry. Qed.

(** Resolving the application only touches the registry. *)
Lemma resolve_frame app :
  let m := App.resolve app in
  preserves same_cache m ∧ preserves same_slots m ∧ preserves same_trace m
  ∧ preserves (λ w w', heap w' = heap w) m.
Proof.
  cbv zeta. split_and!; intros w; unfold exec, App.resolve, App.get_or_create;
    destruct app as [n | a]; try done; by destruct (instances w !! n).
Qed.

Lemma obj_resolve app w r : obj (exec (App.resolve app) w) r = obj w r.
Proof.
  destruct (resolve_frame app) as (_ & _ & _ & Hh). unfold obj. by rewrite (Hh w).
Qed.

Lemma cache_resolve app w : _cache (exec (App.resolve app) w) = _cache w.
Proof. destruct (resolve_frame app) as (Hc & _). apply Hc. Qed.

Lemma slots_resolve app w : app_destroyed (exec (App.resolve app) w) = app_destroyed w.
Proof. destruct (resolve_frame app) as (_ & Hs & _). apply Hs. Qed.

Lemma trace_resolve app w : trace (exec (App.resolve app) w) = trace w.
Proof. destruct (resolve_frame app) as (_ & _ & Ht & _). apply Ht. Qed.

Lemma heap_resolve app w : heap (exec (App.resolve app) w) = heap w.
Proof. destruct (resolve_frame app) as (_ & _ & _ & Hh). apply Hh. Qed.

(** The registry after a resolution depends on the registry before only. *)
Lemma resolve_same_registry app w w' :
  same_registry w w' →
  same_registry (exec (App.resolve app) w) (exec (App.resolve app) w').
Proof.
  intros [Hi Hn]. unfold exec, App.resolve, App.get_or_create.
  destruct app as [n | a]; [| done]. rewrite Hi, Hn.
  destruct (instances w !! n); [done |]. cbn. split; cbn; congruence.
Qed.

Lemma command_init_frame self cid app p :
  let m := QCommandAction.__init__ self cid app p in
  preserves same_cache m ∧ preserves same_slots m ∧ preserves grows m
  ∧ preserves (same_others self) m
  ∧ (∀ r, preserves (same_field checked r) m)
  ∧ (∀ r, preserves (same_field checkable r) m)
  ∧ (∀ r, preserves (same_field enabled r) m)
  ∧ (∀ r, preserves (same_field visible r) m)
  ∧ (∀ r, preserves (same_field destroyed_slots r) m)
  ∧ (∀ r, preserves (same_field _cmd_rule r) m)
  ∧ (∀ r, preserves (same_field _menu_item r) m)
  ∧ (∀ r, preserves (same_field _initialized r) m).
Proof. cbv zeta. split_and!; intros; frame. Qed.

Lemma command_init_spec self cid app p w :
  let m := QCommandAction.__init__ self cid app p in
  let w' := exec m w in
  value m w = Ok tt
  ∧ _app (obj w' self) = Some (App.resolved app w)
  ∧ _command_id (obj w' self) = Some cid
  ∧ objectName (obj w' self) = cid
  ∧ shortcut (obj w' self)
    = match get_keybinding (App.resolved app w) cid with
      | Some kb => Some (QKeyBindingSequence (keybinding kb))
      | None => shortcut (obj w self)
      end
  ∧ trace w' = trace w ++ [EvQActionInit self]
  ∧ same_registry (exec (App.resolve app) w) w'
  ∧ self ∈ dom (heap w').
Proof.
  cbv zeta. unfold same_registry, exec, value.
  destruct (QCommandAction.__init__ self cid app p w) as [w' res] eqn:Hrun.
  cbn [fst snd]. revert Hrun. fold (exec (App.resolve app) w).
  unfold QCommandAction.__init__. unfold_setters. run_unfold. cbn.
  rewrite resolve_run, resolved_upd, resolved_log. sym.
  assert (Hreg : same_registry (exec (App.resolve app) w)
            (exec (App.resolve app)
               (upd self (with_qobject p) (log (EvQActionInit self) w)))).
  { by apply resolve_same_registry. }
  destruct Hreg as [Hi Hn].
  destruct (get_keybinding (App.resolved app w) cid); sym;
    intros [= <- <-]; sym;
    rewrite ?obj_resolve, ?trace_resolve, ?dom_upd; sym;
    split_and!; try done; set_solver.
Qed.

Lemma rule_init_frame self rule app p ust :
  let m := QCommandRuleAction.__init__ self rule app p ust in
  preserves same_cache m ∧ preserves same_slots m ∧ preserves grows m
  ∧ preserves (same_others self) m
  ∧ (∀ r, preserves (same_field enabled r) m)
  ∧ (∀ r, preserves (same_field visible r) m)
  ∧ (∀ r, preserves (same_field destroyed_slots r) m)
  ∧ (∀ r, preserves (same_field _menu_item r) m)
  ∧ (∀ r, preserves (same_field _initialized r) m).
Proof. cbv zeta. split_and!; intros; frame. Qed.

(** Up to the toggle part, the command-rule initialiser cannot raise: it
    reaches [if command_rule.toggled is not None] with the attributes
    bound and only presentation properties written. *)
Lemma rule_init_split self rule app p ust w :
  ∃ w5,
    QCommandRuleAction.__init__ self rule app p ust w
    = match toggled rule with
      | Some _ => QAction.setCheckable self true;; QCommandRuleAction._refresh self
      | None => ret tt
      end w5
    ∧ _app (obj w5 self) = Some (App.resolved app w)
    ∧ _cmd_rule (obj w5 self) = Some rule
    ∧ _command_id (obj w5 self) = Some (id rule)
    ∧ text (obj w5 self)
      = (if ust && truthy_str (short_title rule)
         then default "" (short_title rule) else title rule)
    ∧ checkable (obj w5 self) = checkable (obj w self)
    ∧ checked (obj w5 self) = checked (obj w self)
    ∧ trace w5 = trace w ++ [EvQActionInit self]
    ∧ same_registry (exec (App.resolve app) w) w5
    ∧ self ∈ dom (heap w5).
Proof.
  destruct (command_init_spec self (id rule) app p w)
    as (Hv & Happ & Hcid & _ & _ & Htr & [Hi Hn] & Hdom).
  destruct (command_init_frame self (id rule) app p)
    as (_ & _ & _ & _ & Hck & Hcb & _).
  specialize (Hck self w). specialize (Hcb self w).
  unfold same_field in Hck, Hcb.
  unfold QCommandRuleAction.__init__. rewrite (seq_ok _ _ w Hv).
  set (w1 := exec (QCommandAction.__init__ self (id rule) app p) w) in *.
  clearbody w1. unfold_setters. run_unfold. cbn.
  destruct (ust && truthy_str (short_title rule)), (icon rule),
    (truthy_str (tooltip rule)), (truthy_str (status_tip rule)); cbn.
  all: eexists; split; [reflexivity |].
  all: unfold same_registry; sym; rewrite ?dom_upd.
  all: split_and!; try done; set_solver.
Qed.

Lemma rule_init_spec self rule app p ust w :
  let m := QCommandRuleAction.__init__ self rule app p ust in
  let w' := exec m w in
  let a := App.resolved app w in
  value m w = match provider_result a rule with
              | Ok _ => Ok tt
              | Raise e => Raise e
              end
  ∧ trace w' = trace w ++ EvQActionInit self :: provider_events a rule
  ∧ _app (obj w' self) = Some a
  ∧ _cmd_rule (obj w' self) = Some rule
  ∧ checkable (obj w' self)
    = match toggled rule with
      | Some _ => true
      | None => checkable (obj w self)
      end
  ∧ checked (obj w' self)
    = match provider_result a rule with
      | Ok (Some b) => b
      | _ => checked (obj w self)
      end
  ∧ same_registry (exec (App.resolve app) w) w'
  ∧ self ∈ dom (heap w').
Proof.
  cbv zeta.
  destruct (rule_init_split self rule app p ust w)
    as (w5 & Hsplit & Happ & Hrule & _ & _ & Hcb & Hck & Htr & [Hi Hn] & Hdom).
  unfold provider_result, provider_events, provider_of, same_registry.
  unfold exec, value in *. rewrite Hsplit. clear Hsplit.
  destruct (toggled rule) as [[E | tr] |] eqn:Htog; cbn.
  3: { by split_and!. }
  all: unfold QCommandRuleAction._refresh; unfold_setters; run_unfold; sym.
  all: rewrite Hrule; sym; rewrite Htog; sym.
  { rewrite dom_upd. split_and!; try done; set_solver. }
  destruct (get_current tr) as [g |]; sym.
  2: { rewrite dom_upd. split_and!; try done; set_solver. }
  rewrite Happ; sym.
  destruct (call (inject (App.resolved app w) g unresolved_ignore)); sym.
  all: rewrite ?dom_upd, Htr, <- ?app_assoc; cbn.
  all: split_and!; try done; set_solver.
Qed.


Lemma initialize_frame self m app p :
  let run := QMenuItemAction.initialize self m app p in
  preserves same_cache run ∧ preserves grows run
  ∧ preserves (same_others self) run
  ∧ (∀ r, preserves (same_field enabled r) run)
  ∧ (∀ r, preserves (same_field visible r) run).
Proof. cbv zeta. split_and!; intros; frame. Qed.

Lemma init_frame self m app p c :
  let run := QMenuItemAction.__init__ self m app p c in
  preserves same_cache run ∧ preserves grows run
  ∧ preserves (same_others self) run.
Proof. cbv zeta. split_and!; intros; frame. Qed.

(** The guarded block of [__init__]: it raises exactly when the provider
    does, and then nothing of the registration has happened; otherwise it
    stores the descriptor, connects one slot to each [destroyed] signal
    under the key of the construction, and sets the flag. *)
Lemma initialize_spec self m app p w :
  let run := QMenuItemAction.initialize self m app p in
  let w' := exec run w in
  let a := App.resolved app w in
  let key := (app_id a, hash m) in
  trace w' = trace w ++ EvQActionInit self :: provider_events a (command m)
  ∧ same_registry (exec (App.resolve app) w) w'
  ∧ self ∈ dom (heap w')
  ∧ match provider_result a (command m) with
    | Ok _ =>
        value run w = Ok tt
        ∧ built_from m (obj w' self)
        ∧ _app (obj w' self) = Some a
        ∧ _initialized (obj w' self) = Some true
        ∧ destroyed_slots (obj w' self) = destroyed_slots (obj w self) ++ [key]
        ∧ app_destroyed w'
          = <[app_id a := default [] (app_destroyed w !! app_id a) ++ [key]]>
              (app_destroyed w)
    | Raise e =>
        value run w = Raise e
        ∧ _initialized (obj w' self) = _initialized (obj w self)
        ∧ _menu_item (obj w' self) = _menu_item (obj w self)
        ∧ destroyed_slots (obj w' self) = destroyed_slots (obj w self)
        ∧ app_destroyed w' = app_destroyed w
    end.
Proof.
  cbv zeta.
  destruct (rule_init_spec self (command m) app p false w)
    as (Hv & Htr & Happ & Hrule & _ & _ & [Hi Hn] & Hdom).
  destruct (rule_init_frame self (command m) app p false)
    as (_ & Hsl & _ & _ & _ & _ & Hds & Hmi & Hin).
  specialize (Hsl w). specialize (Hds self w). specialize (Hmi self w).
  specialize (Hin self w). unfold same_slots, same_field in *.
  unfold built_from, same_registry in *.
  set (wr := exec (App.resolve app) w) in *. clearbody wr.
  unfold exec, value.
  destruct (QMenuItemAction.initialize self m app p w) as [w' res] eqn:Hrun.
  cbn [fst snd]. revert Hrun. unfold QMenuItemAction.initialize.
  destruct (provider_result (App.resolved app w) (command m)) as [ob | e].
  - rewrite (seq_ok _ _ w Hv).
    set (w1 := exec (QCommandRuleAction.__init__ self (command m) app p false) w) in *.
    clearbody w1. unfold_setters. run_unfold. sym. rewrite Happ. sym.
    rewrite Happ. sym. intros [= <- <-]. sym. rewrite dom_upd.
    split_and!; try done; try congruence; set_solver.
  - rewrite (bind_raise _ _ w e Hv).
    intros [= <- <-]. by split_and!.
Qed.

(** [getattr(self, "_initialized", False)] under [suppress(RuntimeError)]:
    the flag when it is set, [False] otherwise. *)
Lemma getattr_initialized_run self w :
  suppress_or RuntimeError false (QMenuItemAction.getattr_initialized self) w
  = (w, Ok (default false (_initialized (obj w self)))).
Proof.
  unfold suppress_or, QMenuItemAction.getattr_initialized.
  destruct (_initialized (obj w self)); [done |].
  by destruct (constructed (obj w self)).
Qed.

(** [__init__] is the guarded block, when the flag is not set, followed by
    the update from the empty context. *)
Lemma init_run self m app p c w :
  QMenuItemAction.__init__ self m app p c w
  = if default false (_initialized (obj w self))
    then suppress NameError (QMenuItemAction.update_from_context self ∅) w
    else (QMenuItemAction.initialize self m app p;;
          suppress NameError (QMenuItemAction.update_from_context self ∅)) w.
Proof.
  unfold QMenuItemAction.__init__.
  rewrite (bind_ok _ _ w _ (f_equal snd (getattr_initialized_run self w))).
  unfold exec. rewrite getattr_initialized_run. cbn [fst].
  by destruct (default false (_initialized (obj w self))).
Qed.

(** One call of the menu-item [update_from_context], as a function of
    what the three expressions evaluate to. *)
Lemma menu_update_run self ctx m w :
  built_from m (obj w self) →
  QMenuItemAction.update_from_context self ctx w
  = match eval_or_true (enablement (command m)) ctx with
    | Raise err => (w, Raise err)
    | Ok b =>
        let w1 := upd self (with_enabled b) w in
        match
          match condition_of (command m) with
          | Some e =>
              match eval e ctx with
              | Ok c => Ok (upd self (with_checked c) w1)
              | Raise err => Raise err
              end
          | None => Ok w1
          end
        with
        | Raise err => (w1, Raise err)
        | Ok w2 =>
            match eval_or_true (when m) ctx with
            | Ok v => (upd self (with_visible v) w2, Ok tt)
            | Raise err => (w2, Raise err)
            end
        end
    end.
Proof.
  intros [Hmi Hrule]. unfold QMenuItemAction.update_from_context.
  destruct (eval_or_true (enablement (command m)) ctx) as [b | err] eqn:Hen.
  - pose proof (rule_update_run self ctx (command m) w b Hrule Hen) as Hrun.
    cbv zeta. destruct (condition_of (command m)) as [e |];
      [destruct (eval e ctx) as [c | err] |].
    + rewrite (seq_ok _ _ w (f_equal snd Hrun)). unfold exec. rewrite Hrun. cbn [fst].
      run_unfold. unfold_setters. run_unfold. sym. rewrite Hmi. sym.
      unfold eval_or_true. destruct (when m) as [e' |]; sym; [| done].
      by destruct (eval e' ctx).
    + rewrite (bind_raise _ _ w err (f_equal snd Hrun)). unfold exec.
      by rewrite Hrun.
    + rewrite (seq_ok _ _ w (f_equal snd Hrun)). unfold exec. rewrite Hrun. cbn [fst].
      run_unfold. unfold_setters. run_unfold. sym. rewrite Hmi. sym.
      unfold eval_or_true. destruct (when m) as [e' |]; sym; [| done].
      by destruct (eval e' ctx).
  - unfold eval_or_true in Hen.
    destruct (enablement (command m)) as [e |] eqn:He; [| done].
    pose proof (rule_update_raise self ctx (command m) w e err Hrule He Hen) as Hrun.
    rewrite (bind_raise _ _ w err (f_equal snd Hrun)). unfold exec.
    by rewrite Hrun.
Qed.

Lemma guarded_update_frame self :
  let g := suppress NameError (QMenuItemAction.update_from_context self ∅) in
  preserves same_cache g ∧ preserves same_trace g ∧ preserves same_slots g
  ∧ preserves same_registry g ∧ preserves grows g
  ∧ preserves (same_others self) g
  ∧ (∀ r, preserves (same_field _initialized r) g)
  ∧ (∀ r, preserves (same_field _menu_item r) g)
  ∧ (∀ r, preserves (same_field _cmd_rule r) g)
  ∧ (∀ r, preserves (same_field _app r) g)
  ∧ (∀ r, preserves (same_field destroyed_slots r) g).
Proof. cbv zeta. split_and!; intros; frame. Qed.

End Initialisers.

Section EmptyContext.
Context `{Host} `{!MenuItemHash}.

Lemma suppress_run cls (body : M unit) w :
  suppress cls body w
  = (exec body w,
     match value body w with
     | Ok _ => Ok tt
     | Raise e => if issubclass (exc_class e) cls then Ok tt else Raise e
     end).
Proof.
  unfold suppress, suppress_or, exec, value.
  destruct (body w) as [w' [[] | e]]; cbn; [done |].
  by destruct (issubclass _ _).
Qed.

(** C5.  The update from the empty context that ends [__init__] does not
    raise when the expressions of the menu item can only fail on a missing
    name under the empty context: each such failure is a [NameError], and
    [suppress(NameError)] discards it.  So [__init__] returns on an
    instance that is initialised already, and on a first run whenever the
    guarded block returns. *)
Theorem empty_context_update_never_raises self m :
  Forall fails_only_on_names (exprs_of m) →
  let guarded := suppress NameError (QMenuItemAction.update_from_context self ∅) in
  (∀ w, built_from m (obj w self) → value guarded w = Ok tt)
  ∧ (∀ w app p c,
       built_from m (obj w self) →
       default false (_initialized (obj w self)) = true →
       value (QMenuItemAction.__init__ self m app p c) w = Ok tt)
  ∧ (∀ w app p c,
       default false (_initialized (obj w self)) = false →
       value (QMenuItemAction.initialize self m app p) w = Ok tt →
       value (QMenuItemAction.__init__ self m app p c) w = Ok tt).
Proof.
  intros Hall guarded.
  assert (Hg : ∀ w, built_from m (obj w self) → value guarded w = Ok tt).
  { intros w Hb. subst guarded. unfold value. rewrite suppress_run. cbn [snd].
    unfold value. rewrite (menu_update_run self ∅ m w Hb).
    unfold exprs_of in Hall. rewrite !Forall_app in Hall.
    destruct Hall as (Hen & Hcond & Hwhen).
    unfold eval_or_true, fails_only_on_names in *.
    destruct (enablement (command m)) as [e1 |]; cbn in *;
      [rewrite Forall_singleton in Hen;
       destruct (eval e1 ∅) as [b | err] eqn:He1; cbn;
       [| by rewrite (Hen err)] |].
    all: destruct (condition_of (command m)) as [e2 |]; cbn in *;
      [rewrite Forall_singleton in Hcond;
       destruct (eval e2 ∅) as [c | err] eqn:He2; cbn;
       [| by rewrite (Hcond err)] |].
    all: destruct (when m) as [e3 |]; cbn in *; [| done].
    all: rewrite Forall_singleton in Hwhen.
    all: destruct (eval e3 ∅) as [v | err] eqn:He3; cbn; [done |].
    all: by rewrite (Hwhen err). }
  split_and!; [done | |].
  - intros w app p c Hb Hinit. unfold value. rewrite init_run, Hinit. by apply Hg.
  - intros w app p c Hinit Hbody. unfold value. rewrite init_run, Hinit.
    rewrite (seq_ok _ _ w Hbody). apply Hg.
    pose proof (initialize_spec self m app p w) as Hspec. cbv zeta in Hspec.
    destruct Hspec as (_ & _ & _ & Hcase).
    destruct (provider_result (App.resolved app w) (command m)).
    + by destruct Hcase as (_ & Hb & _).
    + destruct Hcase as (Hr & _). congruence.
Qed.

End EmptyContext.

Section Construction.
Context `{Host} `{!MenuItemHash}.

Lemma obj_alloc r w : obj (with_heap (insert r new_action) w) r = new_action.
Proof. unfold obj; cbn. apply lookup_total_insert_eq. Qed.

Lemma fresh_not_allocated w : heap w !! fresh (dom (heap w)) = None.
Proof. apply not_elem_of_dom, is_fresh. Qed.

(** A cache hit: the allocation step returns the cached instance. *)
Lemma new_hit m app p w r :
  _cache w !! QMenuItemAction.key_of m app w = Some r →
  QMenuItemAction.__new__ m app p true w = (exec (App.resolve app) w, Ok r).
Proof.
  intros Hhit. unfold QMenuItemAction.__new__, QMenuItemAction.key_of in *.
  rewrite (bind_ok _ _ w _ (f_equal snd (resolve_run app w))).
  unfold gets, mbind, M_bind, bind. cbn. by rewrite cache_resolve, Hhit.
Qed.

(** Otherwise it allocates, and registers the instance when caching. *)
Lemma new_miss m app p c w :
  c = false ∨ _cache w !! QMenuItemAction.key_of m app w = None →
  QMenuItemAction.__new__ m app p c w
  = (let r := fresh (dom (heap w)) in
     let w1 := with_heap (insert r new_action) (exec (App.resolve app) w) in
     if c then with_cache (insert (QMenuItemAction.key_of m app w) r) w1 else w1,
     Ok (fresh (dom (heap w)))).
Proof.
  intros Hmiss. unfold QMenuItemAction.__new__, QMenuItemAction.key_of in *.
  rewrite (bind_ok _ _ w _ (f_equal snd (resolve_run app w))).
  unfold gets, mbind, M_bind, bind, QAction.__new__, modify, ret.
  destruct Hmiss as [-> | Hnone]; [| destruct c]; cbn;
    rewrite ?cache_resolve, ?Hnone; cbn; by rewrite heap_resolve.
Qed.

(** A construction is the allocation step, then [__init__] on what it
    returned; the instance comes back only when [__init__] returns. *)
Lemma construct_run m app p c w w0 r :
  QMenuItemAction.__new__ m app p c w = (w0, Ok r) →
  QMenuItemAction.construct m app p c w
  = (exec (QMenuItemAction.__init__ r m app p c) w0,
     match value (QMenuItemAction.__init__ r m app p c) w0 with
     | Ok _ => Ok r
     | Raise e => Raise e
     end).
Proof.
  intros Hnew. unfold QMenuItemAction.construct, exec, value.
  unfold mbind, M_bind, bind. rewrite Hnew.
  by destruct (QMenuItemAction.__init__ r m app p c w0) as [w1 [[] | e]].
Qed.

(** When [__init__] returns, the update from the empty context ran on an
    action built from the descriptor [__init__] was given, provided an
    instance that was initialised before had been built from it too. *)
Lemma init_reaches_update self m app p c w :
  value (QMenuItemAction.__init__ self m app p c) w = Ok tt →
  (default false (_initialized (obj w self)) = true → built_from m (obj w self)) →
  ∃ w2,
    built_from m (obj w2 self)
    ∧ QMenuItemAction.__init__ self m app p c w
      = suppress NameError (QMenuItemAction.update_from_context self ∅) w2.
Proof.
  unfold value. rewrite init_run.
  destruct (default false (_initialized (obj w self))) eqn:Hflag.
  - intros _ Hb. exists w. by split; [apply Hb |].
  - intros Hv _. pose proof (initialize_spec self m app p w) as Hspec.
    cbv zeta in Hspec. destruct Hspec as (_ & _ & _ & Hcase).
    destruct (provider_result (App.resolved app w) (command m)).
    + destruct Hcase as (Hok & Hb & _).
      exists (exec (QMenuItemAction.initialize self m app p) w).
      split; [done |]. by rewrite (seq_ok _ _ w Hok).
    + destruct Hcase as (Hr & _). by rewrite (bind_raise _ _ w e Hr) in Hv.
Qed.

(** C7, for toggle conditions that evaluate.  For a menu item whose [when]
    evaluates to false under the empty context, whose command has no
    enablement expression and whose toggle condition, if it has one,
    evaluates under the empty context, the action a construction returns is
    hidden.  The update asked for an enabled action, but the toolkit
    reports a hidden action as disabled: the action is disabled, and
    showing it again is enough to enable it.  (When the construction reuses
    an initialised cached instance, that instance is assumed built from the
    same descriptor.) *)
Theorem constant_false_when_hides m app p c w r e_when :
  let run := QMenuItemAction.construct m app p c in
  value run w = Ok r →
  (∀ r0, c = true → _cache w !! QMenuItemAction.key_of m app w = Some r0 →
         _initialized (obj w r0) = Some true → built_from m (obj w r0)) →
  when m = Some e_when → eval e_when ∅ = Ok false →
  enablement (command m) = None →
  (∀ e, condition_of (command m) = Some e → ∃ b, eval e ∅ = Ok b) →
  QAction.isVisible (obj (exec run w) r) = false
  ∧ QAction.isEnabled (obj (exec run w) r) = false
  ∧ QAction.isEnabled (obj (exec (QAction.setVisible r true) (exec run w)) r) = true.
Proof.
  intros run Hv Hreuse Hwhen Hfalse Hen Hcond. subst run.
  assert (Hnew : ∃ w0 r',
            QMenuItemAction.__new__ m app p c w = (w0, Ok r')
            ∧ (default false (_initialized (obj w0 r')) = true →
               built_from m (obj w0 r'))).
  { destruct c; [destruct (_cache w !! QMenuItemAction.key_of m app w) as [r0 |] eqn:Hk |].
    - eexists _, _. split; [by apply new_hit |].
      rewrite obj_resolve. intros Hflag. apply (Hreuse r0 eq_refl eq_refl).
      by destruct (_initialized (obj w r0)) as [[] |].
    - eexists _, _. split; [apply new_miss; by right |].
      cbn. by rewrite obj_with_cache, obj_alloc.
    - eexists _, _. split; [apply new_miss; by left |].
      cbn. by rewrite obj_alloc. }
  destruct Hnew as (w0 & r' & Hnew & Hb0).
  unfold value, exec in *. rewrite (construct_run _ _ _ _ _ _ _ Hnew) in *.
  cbn [fst snd] in *.
  destruct (value (QMenuItemAction.__init__ r' m app p c) w0) as [[] |] eqn:Hinit;
    [| done].
  injection Hv as ->.
  destruct (init_reaches_update r m app p c w0 Hinit Hb0) as (w2 & Hb & Hrun).
  unfold exec. rewrite Hrun, suppress_run. cbn [fst].
  unfold exec. rewrite (menu_update_run r ∅ m w2 Hb).
  unfold eval_or_true. rewrite Hen, Hwhen, Hfalse. cbn.
  unfold QAction.isVisible, QAction.isEnabled, QAction.setVisible, QAction.update,
    modify.
  destruct (condition_of (command m)) as [e |]; sym; [| done].
  destruct (Hcond e eq_refl) as [b ->]. sym. done.
Qed.

End Construction.

Section Reentrancy.
Context `{Host} `{!MenuItemHash}.

(** Once the flag is set, [__init__] is the update from the empty context
    and nothing else. *)
Lemma init_skips_when_initialized self m app p c w :
  _initialized (obj w self) = Some true →
  QMenuItemAction.__init__ self m app p c w
  = suppress NameError (QMenuItemAction.update_from_context self ∅) w.
Proof. intros Hflag. by rewrite init_run, Hflag. Qed.

Lemma invoke_all_initialized self calls w :
  _initialized (obj w self) = Some true →
  let wn := invoke_all self calls w in
  trace wn = trace w
  ∧ destroyed_slots (obj wn self) = destroyed_slots (obj w self)
  ∧ app_destroyed wn = app_destroyed w
  ∧ _menu_item (obj wn self) = _menu_item (obj w self)
  ∧ _initialized (obj wn self) = Some true.
Proof.
  revert w. induction calls as [| [m app p c] calls IH]; intros w Hflag; [done |].
  cbn [invoke_all arg_menu_item arg_app arg_parent arg_cache].
  assert (Heq : exec (QMenuItemAction.__init__ self m app p c) w
                = exec (suppress NameError
                          (QMenuItemAction.update_from_context self ∅)) w).
  { unfold exec. by rewrite (init_skips_when_initialized _ _ _ _ _ _ Hflag). }
  rewrite Heq. clear Heq.
  destruct (guarded_update_frame self)
    as (_ & Htr & Hsl & _ & _ & _ & Hin & Hmi & _ & _ & Hds).
  specialize (Htr w). specialize (Hsl w). specialize (Hin self w).
  specialize (Hmi self w). specialize (Hds self w).
  unfold same_trace, same_slots, same_field in *.
  set (w1 := exec _ w) in *. clearbody w1.
  destruct (IH w1) as (? & ? & ? & ? & ?); [congruence |].
  cbv zeta. split_and!; congruence.
Qed.

Lemma init_calls_app self w evs :
  length (List.filter (is_init self) (trace w ++ evs))
  = (init_calls self w + length (List.filter (is_init self) evs))%nat.
Proof. unfold init_calls. by rewrite List.filter_app, length_app. Qed.

Lemma provider_events_no_init self a rule :
  List.filter (is_init self) (provider_events a rule) = [].
Proof. unfold provider_events. by destruct (provider_of rule). Qed.

(** C2, for a guarded block that completed.  On an instance that is not
    initialised yet, once the guarded block of [__init__] has run to its
    end (the flag is set after the first invocation), any further
    invocations leave it run exactly once: the
    command-rule initialiser was entered once, the descriptor stored is the
    one of the first invocation, and each [destroyed] signal carries
    exactly the one slot it gained.  Every invocation that finds the flag
    set is the empty-context update alone. *)
Theorem init_body_runs_once self m app p c calls w :
  default false (_initialized (obj w self)) = false →
  let w1 := exec (QMenuItemAction.__init__ self m app p c) w in
  _initialized (obj w1 self) = Some true →
  let wn := invoke_all self calls w1 in
  let a := App.resolved app w in
  let key := QMenuItemAction.key_of m app w in
  init_calls self wn = S (init_calls self w)
  ∧ destroyed_slots (obj wn self) = destroyed_slots (obj w self) ++ [key]
  ∧ app_destroyed wn
    = <[app_id a := default [] (app_destroyed w !! app_id a) ++ [key]]>
        (app_destroyed w)
  ∧ _menu_item (obj wn self) = Some m
  ∧ _initialized (obj wn self) = Some true
  ∧ (∀ w' m' app' p' c',
       _initialized (obj w' self) = Some true →
       QMenuItemAction.__init__ self m' app' p' c' w'
       = suppress NameError (QMenuItemAction.update_from_context self ∅) w').
Proof.
  intros Hflag w1 Hdone wn a key.
  destruct (invoke_all_initialized self calls w1 Hdone)
    as (Htrn & Hdsn & Hsln & Hmin & Hinn).
  fold wn in Htrn, Hdsn, Hsln, Hmin, Hinn. clearbody wn.
  pose proof (initialize_spec self m app p w) as Hspec. cbv zeta in Hspec.
  destruct Hspec as (Htr & _ & _ & Hcase).
  destruct (guarded_update_frame self)
    as (_ & Hgtr & Hgsl & _ & _ & _ & Hgin & Hgmi & _ & _ & Hgds).
  unfold same_trace, same_slots, same_field, preserves in *.
  set (guarded := suppress NameError (QMenuItemAction.update_from_context self ∅)) in *.
  destruct (provider_result (App.resolved app w) (command m)) as [ob | e].
  - destruct Hcase as (Hok & [Hmi _] & _ & Hin & Hds & Hsl).
    assert (Hw1 : w1 = exec guarded (exec (QMenuItemAction.initialize self m app p) w)).
    { subst w1. unfold exec at 1. by rewrite init_run, Hflag, (seq_ok _ _ w Hok). }
    rewrite Hw1 in *. clear Hw1.
    rewrite Hgtr in Htrn. rewrite Hgds in Hdsn. rewrite Hgsl in Hsln.
    rewrite Hgmi in Hmin.
    split_and!.
    + unfold init_calls at 1. rewrite Htrn, Htr, init_calls_app. cbn.
      rewrite bool_decide_eq_true_2 by done. cbn.
      rewrite provider_events_no_init. cbn. lia.
    + by rewrite Hdsn, Hds.
    + by rewrite Hsln, Hsl.
    + by rewrite Hmin.
    + done.
    + intros. by apply init_skips_when_initialized.
  - destruct Hcase as (Hr & Hin & _).
    assert (Hw1 : w1 = exec (QMenuItemAction.initialize self m app p) w).
    { subst w1. unfold exec at 1. by rewrite init_run, Hflag, (bind_raise _ _ w e Hr). }
    rewrite Hw1, Hin in Hdone. by rewrite Hdone in Hflag.
Qed.

End Reentrancy.

Section Cache.
Context `{Host} `{!MenuItemHash}.

Lemma resolved_with_heap app f w :
  App.resolved app (with_heap f w) = App.resolved app w.
Proof. by apply resolved_same_registry. Qed.

Lemma initialized_allocated w r :
  _initialized (obj w r) ≠ None → r ∈ dom (heap w).
Proof.
  intros Hflag. apply elem_of_dom. destruct (heap w !! r) as [o |] eqn:Hr; [done |].
  exfalso. apply Hflag. unfold obj. by rewrite lookup_total_alt, Hr.
Qed.

(** When [__init__] returns, [self] is an object of the store. *)
Lemma init_allocated self m app p c w :
  value (QMenuItemAction.__init__ self m app p c) w = Ok tt →
  self ∈ dom (heap (exec (QMenuItemAction.__init__ self m app p c) w)).
Proof.
  intros Hv. destruct (init_frame self m app p c) as (_ & Hgrow & _).
  destruct (default false (_initialized (obj w self))) eqn:Hflag.
  - apply (Hgrow w), initialized_allocated.
    by destruct (_initialized (obj w self)).
  - revert Hv. unfold value, exec. rewrite init_run, Hflag.
    pose proof (initialize_spec self m app p w) as Hspec. cbv zeta in Hspec.
    destruct Hspec as (_ & _ & Hdom & Hcase).
    destruct (provider_result (App.resolved app w) (command m)).
    + destruct Hcase as (Hok & _). rewrite (seq_ok _ _ w Hok). intros _.
      destruct (guarded_update_frame self) as (_ & _ & _ & _ & Hg & _).
      by apply (Hg _).
    + destruct Hcase as (Hr & _). by rewrite (bind_raise _ _ w e Hr).
Qed.

(** The allocation step with caching on: whatever it returns is what the
    cache holds under the key afterwards. *)
Lemma new_cached m app p w :
  ∃ w0 r,
    QMenuItemAction.__new__ m app p true w = (w0, Ok r)
    ∧ _cache w0 !! QMenuItemAction.key_of m app w = Some r.
Proof.
  destruct (_cache w !! QMenuItemAction.key_of m app w) as [r |] eqn:Hk.
  - eexists _, _. split; [by apply new_hit |]. by rewrite cache_resolve.
  - eexists _, _. split; [apply new_miss; by right |]. cbn.
    apply lookup_insert_eq.
Qed.

(** What a returning construction went through. *)
Lemma construct_value m app p c w r :
  value (QMenuItemAction.construct m app p c) w = Ok r →
  ∃ w0,
    QMenuItemAction.__new__ m app p c w = (w0, Ok r)
    ∧ value (QMenuItemAction.__init__ r m app p c) w0 = Ok tt
    ∧ exec (QMenuItemAction.construct m app p c) w
      = exec (QMenuItemAction.__init__ r m app p c) w0.
Proof.
  intros Hv.
  assert (Hnew : ∃ w0 r', QMenuItemAction.__new__ m app p c w = (w0, Ok r')).
  { destruct c; [destruct (new_cached m app p w) as (w0 & r' & Hn & _); eauto |].
    eexists _, _. apply new_miss. by left. }
  destruct Hnew as (w0 & r' & Hnew).
  unfold value, exec in *. rewrite (construct_run _ _ _ _ _ _ _ Hnew) in *.
  cbn [fst snd] in *. unfold value, exec in *.
  destruct (QMenuItemAction.__init__ r' m app p c w0) as [w1 [[] | e]] eqn:Hinit;
    cbn [fst snd] in *; [| done].
  injection Hv as ->. exists w0. by rewrite Hinit.
Qed.

Lemma construct_allocated m app p c w r :
  value (QMenuItemAction.construct m app p c) w = Ok r →
  r ∈ dom (heap (exec (QMenuItemAction.construct m app p c) w)).
Proof.
  intros Hv. destruct (construct_value _ _ _ _ _ _ Hv) as (w0 & _ & Hinit & ->).
  by apply init_allocated.
Qed.

(** C1.  With caching on, a second construction whose key
    [(id(app), hash(menu_item))] is that of the first returns the very
    instance the first returned.  A construction with [cache=False]
    returns a new instance (the next identity no object of the store has,
    whatever the cache holds), different from the cached one, and leaves
    the cache as it was. *)
Theorem cached_construction_returns_same_instance
    m1 a1 p1 m2 a2 p2 m3 a3 p3 w r1 r2 r3 :
  let first := QMenuItemAction.construct m1 a1 p1 true in
  let w1 := exec first w in
  let second := QMenuItemAction.construct m2 a2 p2 true in
  let w2 := exec second w1 in
  let third := QMenuItemAction.construct m3 a3 p3 false in
  value first w = Ok r1 →
  value second w1 = Ok r2 →
  QMenuItemAction.key_of m2 a2 w1 = QMenuItemAction.key_of m1 a1 w →
  value third w2 = Ok r3 →
  r2 = r1
  ∧ r3 ≠ r1
  ∧ r3 = fresh (dom (heap w2))
  ∧ heap w2 !! r3 = None
  ∧ _cache (exec third w2) = _cache w2.
Proof.
  intros first w1 second w2 third Hv1 Hv2 Hkey Hv3.
  destruct (init_frame r1 m1 a1 p1 true) as (Hc1 & _).
  destruct (init_frame r3 m3 a3 p3 false) as (Hc3 & _).
  unfold preserves, same_cache in *.
  (* the first construction leaves its instance under its key *)
  assert (Hk1 : _cache w1 !! QMenuItemAction.key_of m1 a1 w = Some r1).
  { destruct (construct_value _ _ _ _ _ _ Hv1) as (w0 & Hnew & _ & Hex).
    subst w1 first. rewrite Hex, Hc1.
    destruct (new_cached m1 a1 p1 w) as (w0' & r' & Hnew' & Hk).
    rewrite Hnew in Hnew'. by injection Hnew' as <- <-. }
  (* the second finds it *)
  assert (Hr2 : r2 = r1).
  { destruct (construct_value _ _ _ _ _ _ Hv2) as (w0 & Hnew & _).
    rewrite <- Hkey in Hk1. rewrite (new_hit m2 a2 p2 w1 r1 Hk1) in Hnew.
    by injection Hnew as _ <-. }
  (* the third allocates *)
  destruct (construct_value _ _ _ _ _ _ Hv3) as (w0 & Hnew & _ & Hex).
  rewrite (new_miss m3 a3 p3 false w2 (or_introl eq_refl)) in Hnew.
  injection Hnew as <- <-.
  pose proof (fresh_not_allocated w2) as Hfresh.
  split_and!; [done | | done | done |].
  - intros Heq. subst r2.
    pose proof (construct_allocated _ _ _ _ _ _ Hv2) as Hdom. fold second w2 in Hdom.
    apply elem_of_dom in Hdom. rewrite <- Heq, Hfresh in Hdom. by destruct Hdom.
  - subst third. rewrite Hex, Hc3. cbn. by rewrite cache_resolve.
Qed.

(** C10.  A first construction under a key, with caching on, that raises:
    the exception is the one [__init__] raised, and the instance the
    allocation step created (a new object) is still in the cache under the
    key. *)
Theorem failed_construction_stays_cached m app p w e :
  let run := QMenuItemAction.construct m app p true in
  let key := QMenuItemAction.key_of m app w in
  let r := fresh (dom (heap w)) in
  _cache w !! key = None →
  value run w = Raise e →
  heap w !! r = None
  ∧ _cache (exec run w) !! key = Some r
  ∧ r ∈ dom (heap (exec run w))
  ∧ ∃ w0, QMenuItemAction.__new__ m app p true w = (w0, Ok r)
          ∧ value (QMenuItemAction.__init__ r m app p true) w0 = Raise e.
Proof.
  intros run key r Hmiss Hv.
  pose proof (new_miss m app p true w (or_intror Hmiss)) as Hnew.
  cbn zeta in Hnew. fold r key in Hnew.
  destruct (init_frame r m app p true) as (Hc & Hgrow & _).
  unfold preserves, same_cache, grows in *.
  pose proof (construct_run _ _ _ _ _ _ _ Hnew) as Hrun.
  assert (Hex : exec run w = exec (QMenuItemAction.__init__ r m app p true)
                               (with_cache (insert key r)
                                  (with_heap (insert r new_action)
                                     (exec (App.resolve app) w)))).
  { subst run. unfold exec at 1. by rewrite Hrun. }
  assert (Hval : value run w
                 = match value (QMenuItemAction.__init__ r m app p true)
                           (with_cache (insert key r)
                              (with_heap (insert r new_action)
                                 (exec (App.resolve app) w))) with
                   | Ok _ => Ok r
                   | Raise e => Raise e
                   end).
  { subst run. unfold value at 1. by rewrite Hrun. }
  rewrite Hval in Hv. rewrite Hex. clear Hrun Hex Hval.
  split_and!.
  - apply fresh_not_allocated.
  - rewrite Hc. cbn. apply lookup_insert_eq.
  - apply Hgrow. cbn. rewrite dom_insert_L. set_solver.
  - eexists. split; [done |].
    match goal with |- ?v = _ => destruct v as [[] | e'] end; [done | congruence].
Qed.

End Cache.

Section Destruction.
Context `{Host} `{!MenuItemHash}.

(** Running the slots removes their keys from the cache, never raises
    (a key that is gone already is not an error), and touches nothing
    else. *)
Lemma run_slots_spec slots w :
  let w' := exec (QMenuItemAction.run_slots slots) w in
  value (QMenuItemAction.run_slots slots) w = Ok tt
  ∧ heap w' = heap w
  ∧ app_destroyed w' = app_destroyed w
  ∧ same_registry w w'
  ∧ ∀ k, _cache w' !! k = if bool_decide (k ∈ slots) then None else _cache w !! k.
Proof.
  revert w. induction slots as [| key rest IH]; intros w.
  - cbn. by split_and!.
  - cbv zeta.
    assert (Hrun : QMenuItemAction.run_slots (key :: rest) w
                   = QMenuItemAction.run_slots rest (with_cache (delete key) w)) by done.
    unfold exec, value. rewrite Hrun.
    destruct (IH (with_cache (delete key) w)) as (Hv & Hh & Hs & [Hi Hn] & Hc).
    unfold exec, value in *.
    split_and!; try done.
    intros k. rewrite Hc. cbn.
    destruct (decide (k = key)) as [-> | Hne].
    + rewrite lookup_delete_eq.
      rewrite (bool_decide_eq_true_2 (key ∈ key :: rest)) by apply list_elem_of_here.
      by destruct (bool_decide _).
    + rewrite lookup_delete_ne by done.
      destruct (decide (k ∈ rest)) as [Hin | Hout].
      * rewrite !bool_decide_eq_true_2; [done | by apply list_elem_of_further | done].
      * rewrite !bool_decide_eq_false_2; [done | | done].
        intros [? | ?]%elem_of_cons; done.
Qed.

Lemma teardown_spec t r a w key :
  key ∈ destroyed_slots (obj w r) →
  key ∈ default [] (app_destroyed w !! app_id a) →
  let w' := exec (teardown t r a) w in
  value (teardown t r a) w = Ok tt
  ∧ _cache w' !! key = None
  ∧ heap w' = heap w
  ∧ same_registry w w'.
Proof.
  intros Hown Happ.
  assert (Hd : ∀ w0, QMenuItemAction.destroy r w0
                     = QMenuItemAction.run_slots (destroyed_slots (obj w0 r)) w0) by done.
  assert (Ha : ∀ w0, QMenuItemAction.destroy_app a w0
                     = QMenuItemAction.run_slots
                         (default [] (app_destroyed w0 !! app_id a)) w0) by done.
  pose proof (run_slots_spec (destroyed_slots (obj w r)) w) as Sd.
  pose proof (run_slots_spec (default [] (app_destroyed w !! app_id a)) w) as Sa.
  cbv zeta in *.
  destruct Sd as (Hdv & Hdh & Hds & Hdr & Hdc).
  destruct Sa as (Hav & Hah & Has & Har & Hac).
  destruct t; cbn [teardown]; unfold exec, value in *.
  - rewrite Hd. split_and!; try done.
    by rewrite Hdc, bool_decide_eq_true_2.
  - rewrite Ha. split_and!; try done.
    by rewrite Hac, bool_decide_eq_true_2.
  - assert (Hv1 : value (QMenuItemAction.destroy r) w = Ok tt)
      by (unfold value; by rewrite Hd).
    rewrite (seq_ok _ _ w Hv1). unfold exec. rewrite Hd, Ha.
    set (w1 := (QMenuItemAction.run_slots (destroyed_slots (obj w r)) w).1) in *.
    pose proof (run_slots_spec (default [] (app_destroyed w1 !! app_id a)) w1) as S2.
    cbv zeta in S2. unfold exec, value in S2.
    destruct S2 as (H2v & H2h & H2s & H2r & H2c).
    split_and!; [done | | congruence | exact (transitivity Hdr H2r)].
    rewrite H2c, Hds, bool_decide_eq_true_2; done.
  - assert (Hv1 : value (QMenuItemAction.destroy_app a) w = Ok tt)
      by (unfold value; by rewrite Ha).
    rewrite (seq_ok _ _ w Hv1). unfold exec. rewrite Hd, Ha.
    set (w1 := (QMenuItemAction.run_slots (default [] (app_destroyed w !! app_id a)) w).1) in *.
    pose proof (run_slots_spec (destroyed_slots (obj w1 r)) w1) as S2.
    cbv zeta in S2. unfold exec, value in S2.
    destruct S2 as (H2v & H2h & H2s & H2r & H2c).
    assert (Hobj : obj w1 r = obj w r) by (unfold obj; by rewrite Hah).
    split_and!; [done | | congruence | exact (transitivity Har H2r)].
    rewrite H2c, Hobj, bool_decide_eq_true_2; done.
Qed.

(** C4.  A first construction under a key, with caching on, connects to
    the [destroyed] signal of the instance and to that of the owning
    application a slot that removes the key.  At any later store where the
    slots are still connected, destroying the instance, the application,
    or both in either order removes the entry without raising (the second
    slot finds the key gone), and the next construction under the key,
    with caching on, creates a new instance, different from the destroyed
    one, and caches it. *)
Theorem destroyed_instance_is_replaced m app p w r :
  let first := QMenuItemAction.construct m app p true in
  let w1 := exec first w in
  let key := QMenuItemAction.key_of m app w in
  let a := App.resolved app w in
  _cache w !! key = None →
  value first w = Ok r →
  (_cache w1 !! key = Some r
   ∧ key ∈ destroyed_slots (obj w1 r)
   ∧ key ∈ default [] (app_destroyed w1 !! app_id a)
   ∧ r ∈ dom (heap w1))
  ∧ ∀ w' t,
      key ∈ destroyed_slots (obj w' r) →
      key ∈ default [] (app_destroyed w' !! app_id a) →
      r ∈ dom (heap w') →
      let w2 := exec (teardown t r a) w' in
      value (teardown t r a) w' = Ok tt
      ∧ _cache w2 !! key = None
      ∧ ∀ m2 a2 p2 r',
          QMenuItemAction.key_of m2 a2 w2 = key →
          value (QMenuItemAction.construct m2 a2 p2 true) w2 = Ok r' →
          r' ≠ r
          ∧ heap w2 !! r' = None
          ∧ _cache (exec (QMenuItemAction.construct m2 a2 p2 true) w2) !! key
            = Some r'.
Proof.
  intros first w1 key a Hmiss Hv. split.
  - destruct (construct_value _ _ _ _ _ _ Hv) as (w0 & Hnew & Hinit & Hex).
    pose proof (new_miss m app p true w (or_intror Hmiss)) as Hnew'.
    rewrite Hnew in Hnew'. cbn zeta in Hnew'. injection Hnew' as Hw0 Hr.
    fold key in Hw0.
    assert (Hres : App.resolved app w0 = a).
    { rewrite Hw0, resolved_with_cache, resolved_with_heap.
      by destruct (resolve_idempotent app w) as [-> _]. }
    assert (Hflag : default false (_initialized (obj w0 r)) = false).
    { rewrite Hw0, Hr. by rewrite obj_with_cache, obj_alloc. }
    assert (Hc0 : _cache w0 !! key = Some r).
    { rewrite Hw0, Hr. cbn. apply lookup_insert_eq. }
    destruct (init_frame r m app p true) as (Hc & _).
    destruct (guarded_update_frame r)
      as (_ & _ & Hgsl & _ & _ & _ & _ & _ & _ & _ & Hgds).
    unfold preserves, same_cache, same_slots, same_field in *.
    pose proof (init_allocated _ _ _ _ _ _ Hinit) as Hdom.
    subst w1 first. rewrite Hex. clear Hex.
    split_and!; [by rewrite Hc | | | done].
    all: revert Hinit; unfold value, exec; rewrite init_run, Hflag.
    all: pose proof (initialize_spec r m app p w0) as Hspec; cbv zeta in Hspec.
    all: destruct Hspec as (_ & _ & _ & Hcase); rewrite Hres in Hcase.
    all: destruct (provider_result a (command m));
           [| destruct Hcase as (Hr' & _); by rewrite (bind_raise _ _ w0 e Hr')].
    all: destruct Hcase as (Hok & _ & _ & _ & Hds & Hsl).
    all: rewrite (seq_ok _ _ w0 Hok); intros _.
    all: match goal with
         | |- context [(suppress ?c ?b ?x).1] =>
             change ((suppress c b x).1) with (exec (suppress c b) x)
         end.
    + rewrite Hgds, Hds. unfold QMenuItemAction.key_of; fold a. set_solver.
    + rewrite Hgsl, Hsl, lookup_insert_eq. cbn.
      unfold QMenuItemAction.key_of; fold a. set_solver.
  - intros w' t Hown Happ Hdom w2.
    destruct (teardown_spec t r a w' key Hown Happ) as (Htv & Htc & Hth & _).
    fold w2 in Htc, Hth. split_and!; [done | done |].
    intros m2 a2 p2 r' Hkey Hv2.
    destruct (construct_value _ _ _ _ _ _ Hv2) as (w0 & Hnew & _ & Hex).
    rewrite <- Hkey in Htc.
    rewrite (new_miss m2 a2 p2 true w2 (or_intror Htc)) in Hnew.
    cbn zeta in Hnew. injection Hnew as Hw0 Hr.
    pose proof (fresh_not_allocated w2) as Hfresh. rewrite Hr in Hfresh.
    destruct (init_frame r' m2 a2 p2 true) as (Hc & _).
    unfold preserves, same_cache in Hc.
    split_and!; [| done |].
    + intros ->. apply elem_of_dom in Hdom. rewrite <- Hth, Hfresh in Hdom.
      by destruct Hdom.
    + rewrite Hex, Hc, <- Hw0, <- Hkey, Hr. cbn. apply lookup_insert_eq.
Qed.

End Destruction.

Section ToggleProvider.
Context `{Host} `{!MenuItemHash}.


End ToggleProvider.

Section StoreUpdates.
Context `{Host}.

Lemma upd_upd self f g w : upd self f (upd self g w) = upd self (f ∘ g) w.
Proof.
  unfold upd, with_heap. cbn. f_equal.
  by rewrite lookup_total_insert_eq, insert_insert_eq.
Qed.

Lemma upd_ext self f g w : f (obj w self) = g (obj w self) → upd self f w = upd self g w.
Proof. intros Hfg. unfold upd, with_heap, obj in *. by rewrite Hfg. Qed.

End StoreUpdates.

(** ** Command actions: construction and activation *)
Section CommandActions.
Context `{Host} `{!MenuItemHash}.

Lemma command_init_connects self cid app p w :
  triggered_slots (obj (exec (QCommandAction.__init__ self cid app p) w) self)
  = S (triggered_slots (obj w self)).
Proof.
  unfold exec.
  destruct (QCommandAction.__init__ self cid app p w) as [w' res] eqn:Hrun.
  cbn [fst]. revert Hrun.
  unfold QCommandAction.__init__. unfold_setters. run_unfold. cbn.
  rewrite resolve_run, resolved_upd, resolved_log. sym.
  destruct (get_keybinding (App.resolved app w) cid); sym;
    intros [= <- <-]; sym; rewrite ?obj_resolve; sym; done.
Qed.

Lemma command_construct_run cid app p w :
  QCommandAction.construct cid app p w
  = (exec (QCommandAction.__init__ (fresh (dom (heap w))) cid app p)
       (with_heap (insert (fresh (dom (heap w))) new_action) w),
     Ok (fresh (dom (heap w)))).
Proof.
  set (r := fresh (dom (heap w))). set (w0 := with_heap (insert r new_action) w).
  destruct (command_init_spec r cid app p w0) as (Hv & _).
  unfold QCommandAction.construct.
  assert (Hnew : QAction.__new__ w = (w0, Ok r)) by done.
  rewrite (bind_ok _ _ w r (f_equal snd Hnew)). unfold exec at 1. rewrite Hnew.
  cbn [fst]. by rewrite (seq_ok _ _ w0 Hv).
Qed.

(** X1.  Constructing a command action never raises.  The new object is
    named after the command, is bound to the command id and to the
    application the argument resolves to, carries the shortcut of the
    command's keybinding exactly when the application has one, has one slot
    connected to [triggered], and the toolkit constructor was called on it
    once.  The menu-item cache is not touched. *)
Theorem command_action_construction cid app p w :
  let run := QCommandAction.construct cid app p in
  let r := fresh (dom (heap w)) in
  let a := App.resolved app w in
  let o := obj (exec run w) r in
  value run w = Ok r
  ∧ heap w !! r = None
  ∧ objectName o = cid
  ∧ _command_id o = Some cid
  ∧ _app o = Some a
  ∧ shortcut o = (λ kb, QKeyBindingSequence (keybinding kb)) <$> get_keybinding a cid
  ∧ triggered_slots o = 1%nat
  ∧ trace (exec run w) = trace w ++ [EvQActionInit r]
  ∧ _cache (exec run w) = _cache w.
Proof.
  cbv zeta. set (r := fresh (dom (heap w))).
  set (w0 := with_heap (insert r new_action) w).
  unfold value, exec at 1 2 3 4 5 6 7. rewrite command_construct_run. cbn [fst snd].
  fold r w0.
  destruct (command_init_spec r cid app p w0)
    as (_ & Happ & Hcid & Hname & Hsc & Htr & _).
  pose proof (command_init_connects r cid app p w0) as Hts.
  destruct (command_init_frame r cid app p) as (Hc & _).
  assert (Hres : App.resolved app w0 = App.resolved app w)
    by apply resolved_with_heap.
  rewrite Hres in *. rewrite (Hc w0).
  assert (Hobj : obj w0 r = new_action) by apply obj_alloc.
  rewrite Hobj in *.
  split_and!; try done; try apply fresh_not_allocated.
Qed.

(** X2.  Triggering a newly constructed command action asks the
    application it was constructed for to execute the command it was
    constructed with, then asks the future for its result; what either
    raises is what the handler raises. *)
Theorem constructed_action_executes_its_command cid app p checked w :
  let r := fresh (dom (heap w)) in
  let a := App.resolved app w in
  let w1 := exec (QCommandAction.construct cid app p) w in
  let handler := QCommandAction._on_triggered r checked in
  trace (exec handler w1)
  = trace w ++ EvQActionInit r :: EvExecuteCommand (app_id a) cid ::
      match execute_command a cid with
      | Ok _ => [EvResult (app_id a) cid]
      | Raise _ => []
      end
  ∧ value handler w1
    = match execute_command a cid with
      | Ok future => match result future with Ok _ => Ok tt | Raise e => Raise e end
      | Raise e => Raise e
      end.
Proof.
  cbv zeta. set (r := fresh (dom (heap w))).
  set (w0 := with_heap (insert r new_action) w).
  assert (Hex : exec (QCommandAction.construct cid app p) w
                = exec (QCommandAction.__init__ r cid app p) w0).
  { unfold exec at 1. by rewrite command_construct_run. }
  rewrite Hex. clear Hex.
  destruct (command_init_spec r cid app p w0) as (_ & Happ & Hcid & _ & _ & Htr & _).
  cbv zeta in *.
  assert (Hres : App.resolved app w0 = App.resolved app w)
    by apply resolved_with_heap.
  rewrite Hres in Happ.
  assert (Htr0 : trace w0 = trace w) by done. rewrite Htr0 in Htr.
  set (w1 := exec (QCommandAction.__init__ r cid app p) w0) in *. clearbody w1.
  unfold QCommandAction._on_triggered. run_unfold. rewrite Happ, Hcid. cbn.
  destruct (execute_command (App.resolved app w) cid) as [future |]; cbn;
    [destruct (result future); cbn |];
    by rewrite Htr, <- ?app_assoc.
Qed.

End CommandActions.

(** ** Command-rule actions: presentation, provider, context updates *)
Section RuleActions.
Context `{Host} `{!MenuItemHash}.

Lemma command_init_keeps_presentation self cid app p :
  let m := QCommandAction.__init__ self cid app p in
  (∀ r, preserves (same_field text r) m)
  ∧ (∀ r, preserves (same_field qicon r) m)
  ∧ (∀ r, preserves (same_field toolTip r) m)
  ∧ (∀ r, preserves (same_field statusTip r) m).
Proof. cbv zeta. split_and!; intros; frame. Qed.

Lemma toggle_part_keeps_presentation self rule :
  let m := match toggled rule with
           | Some _ => QAction.setCheckable self true;; QCommandRuleAction._refresh self
           | None => ret tt
           end in
  preserves (same_field text self) m
  ∧ preserves (same_field qicon self) m
  ∧ preserves (same_field toolTip self) m
  ∧ preserves (same_field statusTip self) m
  ∧ preserves (same_field objectName self) m.
Proof. cbv zeta. split_and!; frame. Qed.

(** What the command-rule initialiser writes of the presentation, whether
    or not the provider then raises. *)
Lemma rule_init_presentation self rule app p ust w :
  let w' := exec (QCommandRuleAction.__init__ self rule app p ust) w in
  text (obj w' self)
  = (if ust && truthy_str (short_title rule) then default "" (short_title rule) else title rule)
  ∧ qicon (obj w' self)
    = match icon rule with
      | Some i => Some (to_qicon i)
      | None => qicon (obj w self)
      end
  ∧ toolTip (obj w' self)
    = (if truthy_str (tooltip rule) then default "" (tooltip rule)
       else toolTip (obj w self))
  ∧ statusTip (obj w' self)
    = (if truthy_str (status_tip rule) then default "" (status_tip rule)
       else statusTip (obj w self))
  ∧ objectName (obj w' self) = id rule.
Proof.
  cbv zeta.
  assert (Hsplit : ∃ w5,
    QCommandRuleAction.__init__ self rule app p ust w
    = match toggled rule with
      | Some _ => QAction.setCheckable self true;; QCommandRuleAction._refresh self
      | None => ret tt
      end w5
    ∧ text (obj w5 self)
      = (if ust && truthy_str (short_title rule)
         then default "" (short_title rule) else title rule)
    ∧ qicon (obj w5 self)
      = match icon rule with
        | Some i => Some (to_qicon i)
        | None => qicon (obj w self)
        end
    ∧ toolTip (obj w5 self)
      = (if truthy_str (tooltip rule) then default "" (tooltip rule)
         else toolTip (obj w self))
    ∧ statusTip (obj w5 self)
      = (if truthy_str (status_tip rule) then default "" (status_tip rule)
         else statusTip (obj w self))
    ∧ objectName (obj w5 self) = id rule).
  { destruct (command_init_spec self (id rule) app p w) as (Hv & _ & _ & Hname & _).
    destruct (command_init_keeps_presentation self (id rule) app p)
      as (Ht & Hi & Htt & Hst).
    specialize (Ht self w). specialize (Hi self w). specialize (Htt self w).
    specialize (Hst self w). unfold same_field in *.
    unfold QCommandRuleAction.__init__. rewrite (seq_ok _ _ w Hv).
    set (w1 := exec (QCommandAction.__init__ self (id rule) app p) w) in *.
    clearbody w1. unfold_setters. run_unfold. cbn.
    destruct (ust && truthy_str (short_title rule)), (icon rule),
      (truthy_str (tooltip rule)), (truthy_str (status_tip rule)); cbn.
    all: eexists; split; [reflexivity |].
    all: sym; by split_and!. }
  destruct Hsplit as (w5 & Hrun & Ht & Hi & Htt & Hst & Hname).
  destruct (toggle_part_keeps_presentation self rule) as (Ft & Fi & Ftt & Fst & Fn).
  cbv zeta in *. unfold preserves, same_field in *.
  unfold exec at 1 2 3 4 5. rewrite Hrun.
  match goal with |- context [(?m w5).1] => change ((m w5).1) with (exec m w5) end.
  by rewrite Ft, Fi, Ftt, Fst, Fn.
Qed.

Lemma rule_construct_run rule app p ust w :
  QCommandRuleAction.construct rule app p ust w
  = (exec (QCommandRuleAction.__init__ (fresh (dom (heap w))) rule app p ust)
       (with_heap (insert (fresh (dom (heap w))) new_action) w),
     match value (QCommandRuleAction.__init__ (fresh (dom (heap w))) rule app p ust)
             (with_heap (insert (fresh (dom (heap w))) new_action) w) with
     | Ok _ => Ok (fresh (dom (heap w)))
     | Raise e => Raise e
     end).
Proof.
  set (r := fresh (dom (heap w))). set (w0 := with_heap (insert r new_action) w).
  unfold QCommandRuleAction.construct.
  assert (Hnew : QAction.__new__ w = (w0, Ok r)) by done.
  rewrite (bind_ok _ _ w r (f_equal snd Hnew)). unfold exec at 1. rewrite Hnew.
  cbn [fst]. unfold mbind, M_bind, bind, exec, value.
  by destruct (QCommandRuleAction.__init__ r rule app p ust w0) as [w1 [[] | e]].
Qed.

(** X3.  Whatever the outcome of constructing a command-rule action, the
    object is named after the rule's id and its text is the title (the
    short title only when asked for and not empty): both are written
    before anything that can fail.  For a rule without icon, where no
    conversion runs, the object has no icon, has the tool tip of the rule
    when that is not empty, has its status tip when that is not empty and
    none otherwise, is checkable exactly when the rule has a [toggled]
    field, and is visible and enabled, whether or not the provider then
    raises. *)
Theorem rule_action_presentation rule app p ust w :
  let run := QCommandRuleAction.construct rule app p ust in
  let o := obj (exec run w) (fresh (dom (heap w))) in
  (text o = (if ust && truthy_str (short_title rule)
             then default "" (short_title rule) else title rule)
   ∧ objectName o = id rule)
  ∧ (icon rule = None →
     qicon o = None
     ∧ (truthy_str (tooltip rule) = true → toolTip o = default "" (tooltip rule))
     ∧ statusTip o
       = (if truthy_str (status_tip rule) then default "" (status_tip rule) else "")
     ∧ checkable o = bool_decide (is_Some (toggled rule))
     ∧ QAction.isVisible o = true
     ∧ QAction.isEnabled o = true).
Proof.
  cbv zeta. set (r := fresh (dom (heap w))).
  set (w0 := with_heap (insert r new_action) w).
  unfold exec. rewrite rule_construct_run. cbn [fst]. fold r w0.
  destruct (rule_init_presentation r rule app p ust w0)
    as (Ht & Hi & Htt & Hst & Hname).
  destruct (rule_init_spec r rule app p ust w0) as (_ & _ & _ & _ & Hcb & _).
  destruct (rule_init_frame r rule app p ust) as (_ & _ & _ & _ & Hen & Hvi & _).
  specialize (Hen r w0). specialize (Hvi r w0). unfold same_field in *.
  cbv zeta in *.
  assert (Hobj : obj w0 r = new_action) by apply obj_alloc.
  rewrite Hobj in *.
  split; [by split |]. intros Hicon. rewrite Hicon in Hi.
  unfold QAction.isVisible, QAction.isEnabled. rewrite Hen, Hvi.
  split_and!; try done.
  - intros Htip. by rewrite Htip in Htt.
  - rewrite Hcb. by destruct (toggled rule).
Qed.

(** X4.  A rule without a provider (no [toggled], a bare expression, or a
    [ToggleRule] without [get_current]) and without icon is constructed
    without consulting the injection store: the construction returns, the
    action is unchecked, and of the calls the trace records (toolkit
    constructor, injection, provider, command execution) the toolkit
    constructor is the only one made. *)
Theorem rule_action_without_provider rule app p ust w :
  provider_of rule = None →
  icon rule = None →
  let run := QCommandRuleAction.construct rule app p ust in
  let r := fresh (dom (heap w)) in
  value run w = Ok r
  ∧ checked (obj (exec run w) r) = false
  ∧ trace (exec run w) = trace w ++ [EvQActionInit r].
Proof.
  intros Hnone _. cbv zeta. set (r := fresh (dom (heap w))).
  set (w0 := with_heap (insert r new_action) w).
  unfold value, exec. rewrite rule_construct_run. cbn [fst snd]. fold r w0.
  destruct (rule_init_spec r rule app p ust w0) as (Hv & Htr & _ & _ & _ & Hck & _).
  cbv zeta in *. unfold provider_result, provider_events in *.
  rewrite Hnone in *.
  assert (Hobj : obj w0 r = new_action) by apply obj_alloc.
  rewrite Hobj in *. rewrite Hv. by split_and!.
Qed.


(** X6.  Failures of [QCommandRuleAction.update_from_context]: when the
    enablement expression raises, the exception propagates and the store is
    unchanged; when the toggle condition raises, the exception propagates
    after [enabled] has been written, and nothing else is. *)
Theorem rule_update_failures self ctx rule w :
  _cmd_rule (obj w self) = Some rule →
  let update := QCommandRuleAction.update_from_context self ctx in
  (∀ e err, enablement rule = Some e → eval e ctx = Raise err →
     update w = (w, Raise err))
  ∧ (∀ b e err, eval_or_true (enablement rule) ctx = Ok b →
       condition_of rule = Some e → eval e ctx = Raise err →
       update w = (upd self (with_enabled b) w, Raise err)).
Proof.
  intros Hrule update. split.
  - intros e err He Herr. by eapply rule_update_raise.
  - intros b e err Hb He Herr.
    pose proof (rule_update_run self ctx rule w b Hrule Hb) as Hrun.
    by rewrite He, Herr in Hrun.
Qed.

(** Calling [update_from_context] on an object whose initialiser did not
    bind [_cmd_rule] raises [AttributeError] and changes nothing. *)
Lemma rule_update_unbound self ctx w :
  _cmd_rule (obj w self) = None →
  QCommandRuleAction.update_from_context self ctx w
  = (w, Raise (attribute_error "_cmd_rule")).
Proof. intros Hnone. run. by rewrite Hnone. Qed.

Lemma with_flags_idem b c (o : Action) :
  with_checked c (with_enabled b (with_checked c (with_enabled b o)))
  = with_checked c (with_enabled b o).
Proof. by destruct o. Qed.

(** X7.  [QCommandRuleAction.update_from_context] is idempotent: run again
    under the same context on the store it left, it returns or raises the
    same and leaves that store as it is. *)
Theorem rule_update_idempotent self ctx w :
  let update := QCommandRuleAction.update_from_context self ctx in
  update (exec update w) = update w.
Proof.
  cbv zeta. destruct (_cmd_rule (obj w self)) as [rule |] eqn:Hrule.
  2: { unfold exec. rewrite (rule_update_unbound self ctx w Hrule). cbn [fst].
       by rewrite (rule_update_unbound self ctx w Hrule). }
  destruct (eval_or_true (enablement rule) ctx) as [b | err] eqn:Hen.
  - pose proof (rule_update_run self ctx rule w b Hrule Hen) as Hrun.
    assert (Hrule' : ∀ f, _cmd_rule (f (obj w self)) = _cmd_rule (obj w self) →
                          _cmd_rule (obj (upd self f w) self) = Some rule).
    { intros f Hf. by rewrite obj_upd_eq, Hf. }
    destruct (condition_of rule) as [e |] eqn:Hcond;
      [destruct (eval e ctx) as [c | err] eqn:Hc |].
    + unfold exec. rewrite Hrun. cbn [fst].
      pose proof (rule_update_run self ctx rule _ b
                    (Hrule' (with_checked c ∘ with_enabled b) eq_refl) Hen) as Hrun2.
      rewrite upd_upd in Hrun2 |- *.
      rewrite Hcond, Hc in Hrun2. rewrite Hrun2, !upd_upd.
      f_equal; try (apply upd_ext; cbn; apply with_flags_idem).
    + unfold exec. rewrite Hrun. cbn [fst].
      pose proof (rule_update_run self ctx rule _ b
                    (Hrule' (with_enabled b) eq_refl) Hen) as Hrun2.
      rewrite Hcond, Hc in Hrun2. rewrite Hrun2, !upd_upd.
      f_equal; try (apply upd_ext; cbn; by destruct (obj w self)).
    + unfold exec. rewrite Hrun. cbn [fst].
      pose proof (rule_update_run self ctx rule _ b
                    (Hrule' (with_enabled b) eq_refl) Hen) as Hrun2.
      rewrite Hcond in Hrun2. rewrite Hrun2, !upd_upd.
      f_equal; try (apply upd_ext; cbn; by destruct (obj w self)).
  - unfold eval_or_true in Hen. destruct (enablement rule) as [e |] eqn:He; [| done].
    pose proof (rule_update_raise self ctx rule w e err Hrule He Hen) as Hrun.
    unfold exec. rewrite Hrun. cbn [fst]. by rewrite Hrun.
Qed.

End RuleActions.

(** ** Menu-item actions: visibility and the empty-context update *)
Section MenuItemUpdates.
Context `{Host} `{!MenuItemHash}.

(** X8.  [QMenuItemAction.update_from_context] under a context where
    enablement evaluates to [b] and the toggle condition evaluates.  When
    [when] evaluates to [v] ([True] when there is no [when]) the update
    returns, the action is visible exactly when [v], and it is enabled
    exactly when it is visible and [b]: a hidden action is disabled
    whatever the enablement says.  When [when] raises, the exception
    propagates, the visibility is left as it was, and [setEnabled] has
    run all the same: the action is enabled exactly when it was visible
    and [b]. *)
Theorem menu_update_sets_visible self ctx m w b :
  built_from m (obj w self) →
  eval_or_true (enablement (command m)) ctx = Ok b →
  (∀ e, condition_of (command m) = Some e → ∃ c, eval e ctx = Ok c) →
  let update := QMenuItemAction.update_from_context self ctx in
  (∀ v, eval_or_true (when m) ctx = Ok v →
     value update w = Ok tt
     ∧ QAction.isVisible (obj (exec update w) self) = v
     ∧ QAction.isEnabled (obj (exec update w) self) = v && b)
  ∧ (∀ err, eval_or_true (when m) ctx = Raise err →
       value update w = Raise err
       ∧ QAction.isVisible (obj (exec update w) self) = QAction.isVisible (obj w self)
       ∧ QAction.isEnabled (obj (exec update w) self)
         = QAction.isVisible (obj w self) && b).
Proof.
  intros Hb Hen Hcond update. subst update. unfold value, exec.
  rewrite (menu_update_run self ctx m w Hb), Hen. cbv zeta.
  unfold QAction.isVisible, QAction.isEnabled.
  destruct (condition_of (command m)) as [e |].
  - destruct (Hcond e eq_refl) as [c ->].
    split; [intros v -> | intros err ->]; cbn [fst snd]; sym; done.
  - split; [intros v -> | intros err ->]; cbn [fst snd]; sym; done.
Qed.

(** X9.  When the enablement expression needs a context key, the
    suppressed empty-context update at the end of [__init__] does nothing
    at all: it returns, and the store (enabled, checked and visible
    included) is the one it started from. *)
Theorem failing_enablement_skips_refresh self m w e err :
  built_from m (obj w self) →
  enablement (command m) = Some e →
  eval e ∅ = Raise err →
  issubclass (exc_class err) NameError = true →
  suppress NameError (QMenuItemAction.update_from_context self ∅) w = (w, Ok tt).
Proof.
  intros Hb He Herr Hsub. rewrite suppress_run. unfold exec, value.
  rewrite (menu_update_run self ∅ m w Hb). unfold eval_or_true.
  rewrite He, Herr. cbn. by rewrite Hsub.
Qed.

(** The allocation step hands [__init__] either a new object or a cached
    one. *)
Lemma new_built_from m app p c w :
  (∀ r0, c = true → _cache w !! QMenuItemAction.key_of m app w = Some r0 →
         _initialized (obj w r0) = Some true → built_from m (obj w r0)) →
  ∃ w0 r,
    QMenuItemAction.__new__ m app p c w = (w0, Ok r)
    ∧ (default false (_initialized (obj w0 r)) = true → built_from m (obj w0 r)).
Proof.
  intros Hreuse.
  destruct c; [destruct (_cache w !! QMenuItemAction.key_of m app w) as [r0 |] eqn:Hk |].
  - eexists _, _. split; [by apply new_hit |].
    rewrite obj_resolve. intros Hflag. apply (Hreuse r0 eq_refl eq_refl).
    by destruct (_initialized (obj w r0)) as [[] |].
  - eexists _, _. split; [apply new_miss; by right |].
    cbn. by rewrite obj_with_cache, obj_alloc.
  - eexists _, _. split; [apply new_miss; by left |].
    cbn. by rewrite obj_alloc.
Qed.

(** X10.  When the enablement expression has the value [b] under the
    empty context ([True] when there is none), the action a construction
    returns is enabled exactly when it is visible and [b]; so an item whose
    enablement is the constant false comes out disabled.  This holds on a
    new instance as well as on a cached one that was initialised from the
    same menu item. *)
Theorem constant_enablement_applies_at_construction m app p c w r b :
  let run := QMenuItemAction.construct m app p c in
  value run w = Ok r →
  (∀ r0, c = true → _cache w !! QMenuItemAction.key_of m app w = Some r0 →
         _initialized (obj w r0) = Some true → built_from m (obj w r0)) →
  eval_or_true (enablement (command m)) ∅ = Ok b →
  QAction.isEnabled (obj (exec run w) r)
  = QAction.isVisible (obj (exec run w) r) && b.
Proof.
  intros run Hv Hreuse Hen. subst run.
  destruct (new_built_from m app p c w Hreuse) as (w0 & r' & Hnew & Hb0).
  unfold value, exec in *. rewrite (construct_run _ _ _ _ _ _ _ Hnew) in *.
  cbn [fst snd] in *.
  destruct (value (QMenuItemAction.__init__ r' m app p c) w0) as [[] |] eqn:Hinit;
    [| done].
  injection Hv as ->.
  destruct (init_reaches_update r m app p c w0 Hinit Hb0) as (w2 & Hb & Hrun).
  unfold exec. rewrite Hrun, suppress_run. cbn [fst].
  unfold exec. rewrite (menu_update_run r ∅ m w2 Hb), Hen. cbv zeta.
  unfold QAction.isVisible, QAction.isEnabled.
  destruct (condition_of (command m)) as [e |];
    [destruct (eval e ∅) |];
    try (destruct (eval_or_true (when m) ∅)); cbn [fst]; sym; done.
Qed.

End MenuItemUpdates.

(** ** The cache and the [destroyed] slots *)
Section CacheEntries.
Context `{Host} `{!MenuItemHash}.

(** A construction that allocates: the guarded block runs on the new
    object, and when the construction returns, both [destroyed] signals
    carry a slot for the key, whether or not the instance was cached. *)
Lemma allocating_construction_hooks m app p c w r :
  c = false ∨ _cache w !! QMenuItemAction.key_of m app w = None →
  value (QMenuItemAction.construct m app p c) w = Ok r →
  let w' := exec (QMenuItemAction.construct m app p c) w in
  let key := QMenuItemAction.key_of m app w in
  r = fresh (dom (heap w))
  ∧ key ∈ destroyed_slots (obj w' r)
  ∧ key ∈ default [] (app_destroyed w' !! app_id (App.resolved app w))
  ∧ _cache w' = (if c then <[key := r]> (_cache w) else _cache w).
Proof.
  intros Hmiss Hv. cbv zeta.
  set (key := QMenuItemAction.key_of m app w). set (a := App.resolved app w).
  destruct (construct_value _ _ _ _ _ _ Hv) as (w0 & Hnew & Hinit & Hex).
  pose proof (new_miss m app p c w Hmiss) as Hnew'.
  rewrite Hnew in Hnew'. cbn zeta in Hnew'. injection Hnew' as Hw0 Hr.
  fold key in Hw0.
  assert (Hres : App.resolved app w0 = a).
  { rewrite Hw0. destruct c; rewrite ?resolved_with_cache, resolved_with_heap;
      by destruct (resolve_idempotent app w) as [-> _]. }
  assert (Hflag : default false (_initialized (obj w0 r)) = false).
  { rewrite Hw0, Hr. destruct c; by rewrite ?obj_with_cache, obj_alloc. }
  assert (Hobj : destroyed_slots (obj w0 r) = []).
  { rewrite Hw0, Hr. destruct c; by rewrite ?obj_with_cache, obj_alloc. }
  assert (Hc0 : _cache w0 = (if c then <[key := r]> (_cache w) else _cache w)).
  { rewrite Hw0, Hr. destruct c; cbn; by rewrite cache_resolve. }
  destruct (init_frame r m app p c) as (Hc & _).
  destruct (guarded_update_frame r)
    as (_ & _ & Hgsl & _ & _ & _ & _ & _ & _ & _ & Hgds).
  unfold preserves, same_cache, same_slots, same_field in *.
  rewrite Hex. clear Hex.
  split_and!; [done | | | by rewrite Hc].
  all: revert Hinit; unfold value, exec; rewrite init_run, Hflag.
  all: pose proof (initialize_spec r m app p w0) as Hspec; cbv zeta in Hspec.
  all: destruct Hspec as (_ & _ & _ & Hcase); rewrite Hres in Hcase.
  all: destruct (provider_result a (command m));
         [| destruct Hcase as (Hr' & _); by rewrite (bind_raise _ _ w0 e Hr')].
  all: destruct Hcase as (Hok & _ & _ & _ & Hds & Hsl).
  all: rewrite (seq_ok _ _ w0 Hok); intros _.
  all: match goal with
       | |- context [(suppress ?c ?b ?x).1] =>
           change ((suppress c b x).1) with (exec (suppress c b) x)
       end.
  - rewrite Hgds, Hds. unfold key, QMenuItemAction.key_of; fold a.
    apply elem_of_app. right. apply list_elem_of_here.
  - rewrite Hgsl, Hsl, lookup_insert_eq. cbn.
    unfold key, QMenuItemAction.key_of; fold a.
    apply elem_of_app. right. apply list_elem_of_here.
Qed.

Lemma destroy_run r w :
  QMenuItemAction.destroy r w
  = QMenuItemAction.run_slots (destroyed_slots (obj w r)) w.
Proof. done. Qed.

(** X11.  An instance built with [cache=False] still connects the slot that
    pops its key: the construction leaves the cache as it was, and
    destroying the uncached instance removes whatever entry the cache holds
    under the key, that of another instance included. *)
Theorem uncached_instance_evicts_cached_entry m app p w r :
  let run := QMenuItemAction.construct m app p false in
  let key := QMenuItemAction.key_of m app w in
  let w' := exec run w in
  value run w = Ok r →
  heap w !! r = None
  ∧ _cache w' = _cache w
  ∧ key ∈ destroyed_slots (obj w' r)
  ∧ value (QMenuItemAction.destroy r) w' = Ok tt
  ∧ _cache (exec (QMenuItemAction.destroy r) w') !! key = None
  ∧ heap (exec (QMenuItemAction.destroy r) w') = heap w'.
Proof.
  intros run key w' Hv.
  destruct (allocating_construction_hooks m app p false w r (or_introl eq_refl) Hv)
    as (Hr & Hown & _ & Hc).
  fold w' key in Hown, Hc.
  destruct (run_slots_spec (destroyed_slots (obj w' r)) w') as (Hdv & Hdh & _ & _ & Hdc).
  unfold exec, value in Hdv, Hdh, Hdc |- *. rewrite destroy_run.
  split_and!; try done.
  - rewrite Hr. apply fresh_not_allocated.
  - by rewrite Hdc, bool_decide_eq_true_2.
Qed.

(** X12.  A construction changes the cache at its own key only, whether it
    returns or raises: other entries stay, an entry already under the key
    stays, [cache=False] leaves the whole cache as it is, and [cache=True]
    leaves an entry under the key. *)
Theorem construction_touches_only_its_key m app p c w :
  let w' := exec (QMenuItemAction.construct m app p c) w in
  let key := QMenuItemAction.key_of m app w in
  (∀ k, k ≠ key → _cache w' !! k = _cache w !! k)
  ∧ (∀ r0, _cache w !! key = Some r0 → _cache w' !! key = Some r0)
  ∧ (c = false → _cache w' = _cache w)
  ∧ (c = true → is_Some (_cache w' !! key)).
Proof.
  cbv zeta. set (key := QMenuItemAction.key_of m app w).
  assert (Hnew : ∃ w0 r,
            QMenuItemAction.__new__ m app p c w = (w0, Ok r)
            ∧ _cache w0 = (if c then
                             match _cache w !! key with
                             | Some _ => _cache w
                             | None => <[key := r]> (_cache w)
                             end
                           else _cache w)).
  { destruct c; [destruct (_cache w !! key) as [r0 |] eqn:Hk |].
    - eexists _, _. split; [by apply new_hit |]. by rewrite cache_resolve.
    - eexists _, _. split; [apply new_miss; by right |]. cbn. by rewrite cache_resolve.
    - eexists _, _. split; [apply new_miss; by left |]. cbn. by rewrite cache_resolve. }
  destruct Hnew as (w0 & r & Hnew & Hc0).
  destruct (init_frame r m app p c) as (Hc & _).
  unfold preserves, same_cache in Hc.
  unfold exec at 1 2 3 4. rewrite (construct_run _ _ _ _ _ _ _ Hnew). cbn [fst].
  rewrite Hc, Hc0.
  split_and!.
  - intros k Hne. destruct c; [| done].
    destruct (_cache w !! key); [done |]. by rewrite lookup_insert_ne.
  - intros r0 Hk. rewrite Hk. by destruct c.
  - by intros ->.
  - intros ->. destruct (_cache w !! key) eqn:Hk; [by rewrite Hk |].
    rewrite lookup_insert_eq. by eexists.
Qed.

Lemma run_slots_exec slots w :
  QMenuItemAction.run_slots slots w
  = (with_cache (λ c, foldl (λ c k, delete k c) c slots) w, Ok tt).
Proof.
  revert w. induction slots as [| key rest IH]; intros w; [by destruct w |].
  assert (Hrun : QMenuItemAction.run_slots (key :: rest) w
                 = QMenuItemAction.run_slots rest (with_cache (delete key) w)) by done.
  by rewrite Hrun, IH.
Qed.

Lemma lookup_foldl_delete (c : gmap Key Ref) slots k :
  foldl (λ c k, delete k c) c slots !! k
  = if bool_decide (k ∈ slots) then None else c !! k.
Proof.
  revert c. induction slots as [| key rest IH]; intros c; [done |].
  cbn [foldl]. rewrite IH.
  destruct (decide (k = key)) as [-> | Hne].
  - rewrite lookup_delete_eq.
    rewrite (bool_decide_eq_true_2 (key ∈ key :: rest)) by apply list_elem_of_here.
    by destruct (bool_decide _).
  - rewrite lookup_delete_ne by done.
    destruct (decide (k ∈ rest)) as [Hin | Hout].
    + rewrite !bool_decide_eq_true_2; [done | by apply list_elem_of_further | done].
    + rewrite !bool_decide_eq_false_2; [done | | done].
      intros [? | ?]%elem_of_cons; done.
Qed.

(** X13.  Emitting [destroyed] on an object never raises, removes from the
    cache exactly the keys of the slots connected to it, leaves heap and
    trace alone, and emitting it again changes nothing. *)
Theorem destroy_removes_exactly_its_keys r w :
  let w' := exec (QMenuItemAction.destroy r) w in
  value (QMenuItemAction.destroy r) w = Ok tt
  ∧ (∀ k, _cache w' !! k
          = if bool_decide (k ∈ destroyed_slots (obj w r)) then None
            else _cache w !! k)
  ∧ heap w' = heap w
  ∧ trace w' = trace w
  ∧ exec (QMenuItemAction.destroy r) w' = w'.
Proof.
  cbv zeta. unfold exec, value. rewrite !destroy_run, run_slots_exec. cbn [fst snd].
  split_and!; try done.
  - intros k. cbn. apply lookup_foldl_delete.
  - rewrite run_slots_exec. cbn [fst].
    assert (Hobj : obj (with_cache (λ c, foldl (λ c k, delete k c) c
                                           (destroyed_slots (obj w r))) w) r
                   = obj w r) by done.
    rewrite Hobj. unfold with_cache. cbn. f_equal.
    apply map_eq. intros k. rewrite !lookup_foldl_delete.
    by destruct (bool_decide _).
Qed.

Lemma obj_alloc_ne r r' w :
  r' ≠ r → obj (with_heap (insert r new_action) w) r' = obj w r'.
Proof. intros Hne. unfold obj. cbn. by rewrite lookup_total_insert_ne. Qed.

(** The store the allocation step hands over differs from the one it got
    in the registry, in the new object and in the new cache entry only. *)
Lemma new_spec m app p c w :
  ∃ w0 r,
    QMenuItemAction.__new__ m app p c w = (w0, Ok r)
    ∧ (∀ r', r' ≠ r → obj w0 r' = obj w r')
    ∧ same_registry (exec (App.resolve app) w) w0
    ∧ trace w0 = trace w
    ∧ app_destroyed w0 = app_destroyed w.
Proof.
  destruct c; [destruct (_cache w !! QMenuItemAction.key_of m app w) as [r0 |] eqn:Hk |].
  - eexists _, _. split; [by apply new_hit |].
    split_and!; [| done | apply trace_resolve | apply slots_resolve].
    intros r' _. apply obj_resolve.
  - eexists _, _. split; [apply new_miss; by right |]. cbn.
    split_and!; [| done | apply trace_resolve | apply slots_resolve].
    intros r' Hne. by rewrite obj_with_cache, obj_alloc_ne, obj_resolve.
  - eexists _, _. split; [apply new_miss; by left |]. cbn.
    split_and!; [| done | apply trace_resolve | apply slots_resolve].
    intros r' Hne. by rewrite obj_alloc_ne, obj_resolve.
Qed.

(** X14.  A construction that returns [r] leaves every other object of the
    store as it was. *)
Theorem construction_leaves_other_objects m app p c w r :
  value (QMenuItemAction.construct m app p c) w = Ok r →
  ∀ r', r' ≠ r → obj (exec (QMenuItemAction.construct m app p c) w) r' = obj w r'.
Proof.
  intros Hv r' Hne.
  destruct (construct_value _ _ _ _ _ _ Hv) as (w0 & Hnew & _ & ->).
  destruct (new_spec m app p c w) as (w0' & r0 & Hnew' & Hoth & _).
  rewrite Hnew in Hnew'. injection Hnew' as <- <-.
  destruct (init_frame r m app p c) as (_ & _ & Hso).
  rewrite (Hso w0 r' Hne). by apply Hoth.
Qed.

(** A construction leaves the registry as resolving its application
    argument leaves it. *)
Lemma construct_registry m app p c w :
  same_registry (exec (App.resolve app) w)
    (exec (QMenuItemAction.construct m app p c) w).
Proof.
  destruct (new_spec m app p c w) as (w0 & r & Hnew & _ & Hreg & _).
  unfold exec at 2. rewrite (construct_run _ _ _ _ _ _ _ Hnew). cbn [fst].
  etrans; [exact Hreg |]. unfold exec. rewrite init_run.
  destruct (guarded_update_frame r) as (_ & _ & _ & Hg & _).
  destruct (default false (_initialized (obj w0 r))).
  - apply (Hg w0).
  - pose proof (initialize_spec r m app p w0) as Hspec. cbv zeta in Hspec.
    destruct Hspec as (_ & Hireg & _ & Hcase).
    assert (Hw0 : same_registry w0 (exec (App.resolve app) w0)).
    { destruct (resolve_idempotent app w) as [_ Hidem].
      pose proof (resolve_same_registry app _ _ Hreg) as Hrr.
      rewrite Hidem in Hrr.
      destruct Hreg as [? ?], Hrr as [? ?]. split; congruence. }
    destruct (provider_result (App.resolved app w0) (command m)).
    + destruct Hcase as (Hok & _). rewrite (seq_ok _ _ w0 Hok).
      etrans; [exact Hw0 |]. etrans; [exact Hireg |]. apply (Hg _).
    + destruct Hcase as (Hr & _). rewrite (bind_raise _ _ w0 e Hr). cbn [fst].
      etrans; [exact Hw0 | exact Hireg].
Qed.

Lemma key_of_stable m app m' p c w :
  QMenuItemAction.key_of m app (exec (QMenuItemAction.construct m' app p c) w)
  = QMenuItemAction.key_of m app w.
Proof.
  unfold QMenuItemAction.key_of. f_equal. f_equal.
  rewrite (resolved_same_registry app _ _ (construct_registry m' app p c w)).
  by destruct (resolve_idempotent app w) as [-> _].
Qed.

(** X15.  Two constructions with caching on, from the same menu item and
    the same application argument (a handle or a name), return the same
    instance: the first leaves the application registered, so the second
    computes the same key. *)
Theorem same_arguments_same_instance m app p1 p2 w r1 r2 :
  let first := QMenuItemAction.construct m app p1 true in
  value first w = Ok r1 →
  value (QMenuItemAction.construct m app p2 true) (exec first w) = Ok r2 →
  r2 = r1.
Proof.
  intros first Hv1 Hv2.
  destruct (init_frame r1 m app p1 true) as (Hc1 & _).
  unfold preserves, same_cache in Hc1.
  assert (Hk1 : _cache (exec first w) !! QMenuItemAction.key_of m app w = Some r1).
  { destruct (construct_value _ _ _ _ _ _ Hv1) as (w0 & Hnew & _ & Hex).
    subst first. rewrite Hex, Hc1.
    destruct (new_cached m app p1 w) as (w0' & r' & Hnew' & Hk).
    rewrite Hnew in Hnew'. by injection Hnew' as <- <-. }
  destruct (construct_value _ _ _ _ _ _ Hv2) as (w0 & Hnew & _).
  rewrite <- (key_of_stable m app m p1 true w) in Hk1. fold first in Hk1.
  rewrite (new_hit m app p2 _ r1 Hk1) in Hnew. by injection Hnew as _ <-.
Qed.

End CacheEntries.

(** ** What a construction returns or raises *)
Section Outcomes.
Context `{Host} `{!MenuItemHash}.

Lemma guarded_update_keeps_text self :
  preserves (same_field text self)
    (suppress NameError (QMenuItemAction.update_from_context self ∅)).
Proof. frame. Qed.

Lemma exec_seq {B} (s : M unit) (k : M B) w :
  exec (s;; k) w
  = match value s w with
    | Ok _ => exec k (exec s w)
    | Raise _ => exec s w
    end.
Proof.
  unfold exec, value, mbind, M_bind, bind.
  by destruct (s w) as [w1 [[] | e]].
Qed.

(** The guarded block passes no [use_short_title]: the text is the full
    title. *)
Lemma initialize_text self m app p w :
  text (obj (exec (QMenuItemAction.initialize self m app p) w) self)
  = title (command m).
Proof.
  destruct (rule_init_presentation self (command m) app p false w) as (Ht & _).
  cbn in Ht. unfold QMenuItemAction.initialize. rewrite exec_seq.
  destruct (value (QCommandRuleAction.__init__ self (command m) app p false) w);
    [| done].
  match goal with
  | |- text (obj (exec ?k ?w1) self) = _ =>
      assert (Hk : preserves (same_field text self) k) by frame;
      specialize (Hk w1)
  end.
  unfold same_field in Hk. by rewrite Hk.
Qed.

(** X16.  A menu-item action that is newly allocated shows the full title:
    [__init__] passes no [use_short_title], so the short title of the
    command is never used. *)
Theorem menu_action_shows_full_title m app p c w :
  c = false ∨ _cache w !! QMenuItemAction.key_of m app w = None →
  text (obj (exec (QMenuItemAction.construct m app p c) w) (fresh (dom (heap w))))
  = title (command m).
Proof.
  intros Hmiss. pose proof (new_miss m app p c w Hmiss) as Hnew. cbn zeta in Hnew.
  set (r := fresh (dom (heap w))) in *.
  unfold exec at 1. rewrite (construct_run _ _ _ _ _ _ _ Hnew). cbn [fst].
  match goal with |- text (obj (exec _ ?ww) r) = _ => set (w0 := ww) end.
  assert (Hflag : default false (_initialized (obj w0 r)) = false).
  { subst w0 r. destruct c; by rewrite ?obj_with_cache, obj_alloc. }
  unfold exec at 1. rewrite init_run, Hflag.
  fold (exec (QMenuItemAction.initialize r m app p;;
              suppress NameError (QMenuItemAction.update_from_context r ∅)) w0).
  rewrite exec_seq.
  destruct (value (QMenuItemAction.initialize r m app p) w0).
  - rewrite (guarded_update_keeps_text r _). apply initialize_text.
  - apply initialize_text.
Qed.

Lemma menu_update_value self ctx m w :
  built_from m (obj w self) →
  value (QMenuItemAction.update_from_context self ctx) w
  = match first_failure m ctx with
    | Some err => Raise err
    | None => Ok tt
    end.
Proof.
  intros Hb. unfold value. rewrite (menu_update_run self ctx m w Hb).
  unfold first_failure.
  destruct (eval_or_true (enablement (command m)) ctx); [| done]. cbv zeta.
  unfold eval_or_true at 2.
  destruct (condition_of (command m)) as [e |];
    [destruct (eval e ctx); [| done] |];
    by destruct (eval_or_true (when m) ctx).
Qed.

Lemma guarded_update_value self m w :
  built_from m (obj w self) →
  value (suppress NameError (QMenuItemAction.update_from_context self ∅)) w
  = suppressed NameError (first_failure m ∅).
Proof.
  intros Hb. unfold value at 1. rewrite suppress_run. cbn [snd].
  rewrite (menu_update_value self ∅ m w Hb). unfold suppressed.
  by destruct (first_failure m ∅).
Qed.

Lemma value_seq {B} (s : M unit) (k : M B) w :
  value (s;; k) w
  = match value s w with
    | Ok _ => value k (exec s w)
    | Raise e => Raise e
    end.
Proof.
  unfold exec, value, mbind, M_bind, bind.
  by destruct (s w) as [w1 [[] | e]].
Qed.

(** What [__init__] returns or raises: the provider is consulted only when
    the flag is unset, and of the empty-context update only a failure that
    is not a [NameError] comes out. *)
Lemma init_value self m app p c w :
  (default false (_initialized (obj w self)) = true → built_from m (obj w self)) →
  value (QMenuItemAction.__init__ self m app p c) w
  = if default false (_initialized (obj w self))
    then suppressed NameError (first_failure m ∅)
    else match provider_result (App.resolved app w) (command m) with
         | Ok _ => suppressed NameError (first_failure m ∅)
         | Raise e => Raise e
         end.
Proof.
  intros Hb. unfold value at 1. rewrite init_run.
  destruct (default false (_initialized (obj w self))).
  - by apply guarded_update_value, Hb.
  - fold (value (QMenuItemAction.initialize self m app p;;
                 suppress NameError (QMenuItemAction.update_from_context self ∅)) w).
    rewrite value_seq.
    pose proof (initialize_spec self m app p w) as Hspec. cbv zeta in Hspec.
    destruct Hspec as (_ & _ & _ & Hcase).
    destruct (provider_result (App.resolved app w) (command m)).
    + destruct Hcase as (-> & Hb' & _). by apply guarded_update_value.
    + by destruct Hcase as (-> & _).
Qed.

Lemma resolved_after_new m app p c w w0 r :
  QMenuItemAction.__new__ m app p c w = (w0, Ok r) →
  App.resolved app w0 = App.resolved app w.
Proof.
  intros Hnew. destruct (new_spec m app p c w) as (w0' & r' & Hnew' & _ & Hreg & _).
  rewrite Hnew in Hnew'. injection Hnew' as <- <-.
  rewrite (resolved_same_registry app _ _ Hreg).
  by destruct (resolve_idempotent app w) as [-> _].
Qed.

(** X17.  The outcome of a construction that allocates, for a command
    without icon.  It raises what the provider raises; otherwise it raises
    the first failure of the empty-context update (enablement, then toggle
    condition, then [when]) unless that is a [NameError]; otherwise it
    returns the new instance. *)
Theorem new_instance_outcome m app p c w :
  c = false ∨ _cache w !! QMenuItemAction.key_of m app w = None →
  icon (command m) = None →
  value (QMenuItemAction.construct m app p c) w
  = match provider_result (App.resolved app w) (command m) with
    | Ok _ =>
        match suppressed NameError (first_failure m ∅) with
        | Ok _ => Ok (fresh (dom (heap w)))
        | Raise err => Raise err
        end
    | Raise e => Raise e
    end.
Proof.
  intros Hmiss _. pose proof (new_miss m app p c w Hmiss) as Hnew. cbn zeta in Hnew.
  set (r := fresh (dom (heap w))) in *.
  unfold value at 1. rewrite (construct_run _ _ _ _ _ _ _ Hnew). cbn [snd].
  pose proof (resolved_after_new _ _ _ _ _ _ _ Hnew) as Hres.
  match type of Hnew with _ = (?ww, _) => set (w0 := ww) in * end.
  assert (Hflag : default false (_initialized (obj w0 r)) = false).
  { subst w0 r. destruct c; by rewrite ?obj_with_cache, obj_alloc. }
  rewrite init_value by (by rewrite Hflag).
  rewrite Hflag, Hres.
  by destruct (provider_result (App.resolved app w) (command m)).
Qed.

(** X18.  A construction that finds an initialised instance in the cache
    calls no collaborator (neither the toolkit constructor nor the
    provider), connects no slot and leaves the cache as it is; it returns
    the instance, unless the empty-context update fails with something
    other than a [NameError], which it then raises. *)
Theorem cached_instance_outcome m app p w r :
  let run := QMenuItemAction.construct m app p true in
  _cache w !! QMenuItemAction.key_of m app w = Some r →
  _initialized (obj w r) = Some true →
  built_from m (obj w r) →
  value run w
  = match suppressed NameError (first_failure m ∅) with
    | Ok _ => Ok r
    | Raise err => Raise err
    end
  ∧ trace (exec run w) = trace w
  ∧ _cache (exec run w) = _cache w
  ∧ app_destroyed (exec run w) = app_destroyed w
  ∧ destroyed_slots (obj (exec run w) r) = destroyed_slots (obj w r).
Proof.
  intros run Hhit Hflag Hb. subst run.
  pose proof (new_hit m app p w r Hhit) as Hnew.
  unfold value, exec. rewrite (construct_run _ _ _ _ _ _ _ Hnew). cbn [fst snd].
  set (w0 := exec (App.resolve app) w) in *.
  assert (Hobj : obj w0 r = obj w r) by apply obj_resolve.
  assert (Hflag0 : default false (_initialized (obj w0 r)) = true)
    by (by rewrite Hobj, Hflag).
  rewrite init_value by (by rewrite Hobj).
  rewrite Hflag0. unfold exec. rewrite init_run, Hflag0.
  destruct (guarded_update_frame r)
    as (Hc & Ht & Hs & _ & _ & _ & _ & _ & _ & _ & Hds).
  specialize (Hc w0). specialize (Ht w0). specialize (Hs w0). specialize (Hds r w0).
  unfold same_cache, same_trace, same_slots, same_field, exec in *.
  rewrite Hc, Ht, Hs, Hds, Hobj.
  split_and!; [done | apply trace_resolve | apply cache_resolve | apply slots_resolve
              | done].
Qed.


End Outcomes.

(** * The embedding on concrete inputs *)
Section Examples.
Import Sample.

Example activation_raises_what_the_command_raised :
  _app (obj w_command 0%nat) = Some main_app
  ∧ _command_id (obj w_command 0%nat) = Some "file.fail"
  ∧ value (QCommandAction._on_triggered 0%nat true) w_command
    = Raise (mkExc ValueError "cannot open").
Proof.
  assert (H1 : _app (obj w_command 0%nat) = Some main_app)
    by (vm_compute; reflexivity).
  assert (H2 : _command_id (obj w_command 0%nat) = Some "file.fail")
    by (vm_compute; reflexivity).
  split_and!; [exact H1 | exact H2 |].
  destruct (on_triggered_executes_and_propagates 0%nat true w_command
              main_app "file.fail" H1 H2) as (_ & _ & Hprop & _).
  apply (Hprop (mkFuture (Raise (mkExc ValueError "cannot open")))); reflexivity.
Defined.

Example disabled_and_checked :
  _cmd_rule (obj w_expr_rule 0%nat) = Some expr_rule
  ∧ let w' := exec (QCommandRuleAction.update_from_context 0%nat ctx_checked_disabled)
                w_expr_rule in
    enabled (obj w' 0%nat) = false ∧ checked (obj w' 0%nat) = true
    ∧ checked (obj (exec (QCommandRuleAction.update_from_context 0%nat ctx_unchecked)
                      w') 0%nat) = false.
Proof.
  assert (H1 : _cmd_rule (obj w_expr_rule 0%nat) = Some expr_rule)
    by (vm_compute; reflexivity).
  split; [exact H1 |]. cbv zeta.
  destruct (update_from_context_sets_enabled_and_checked 0%nat ctx_checked_disabled
              expr_rule w_expr_rule H1) as (_ & _ & Hone & Htwo).
  destruct (Hone (Name "x") false true eq_refl eq_refl eq_refl) as (_ & He & Hc).
  destruct (Htwo (Name "x") ctx_unchecked true false eq_refl eq_refl eq_refl)
    as (Hc2 & _).
  split_and!; [exact He | exact Hc | exact Hc2].
Defined.

Example provider_only_rule_stays_checked :
  _cmd_rule (obj w_provider_rule 0%nat) = Some (provider_rule (Returns true))
  ∧ toggled (provider_rule (Returns true))
    = Some (ToggledRule (provider_toggle (Returns true)))
  ∧ condition (provider_toggle (Returns true)) = None
  ∧ checked (obj (exec (QCommandRuleAction.update_from_context 0%nat ctx_unchecked)
                    w_provider_rule) 0%nat)
    = checked (obj w_provider_rule 0%nat).
Proof.
  assert (H1 : _cmd_rule (obj w_provider_rule 0%nat)
               = Some (provider_rule (Returns true)))
    by (vm_compute; reflexivity).
  split_and!; [exact H1 | reflexivity | reflexivity |].
  destruct (provider_only_toggle_keeps_checked 0%nat ctx_unchecked
              (provider_rule (Returns true)) (provider_toggle (Returns true))
              w_provider_rule H1 eq_refl eq_refl) as ((Hc & _) & _).
  exact Hc.
Defined.


Example missing_keys_do_not_fail_construction :
  Forall fails_only_on_names (exprs_of keyed_item)
  ∧ let w0 := exec (QMenuItemAction.__new__ keyed_item handle None true) empty_world in
    default false (_initialized (obj w0 0%nat)) = false
    ∧ value (QMenuItemAction.initialize 0%nat keyed_item handle None) w0 = Ok tt
    ∧ value (QMenuItemAction.__init__ 0%nat keyed_item handle None true) w0 = Ok tt.
Proof.
  assert (Hall : Forall fails_only_on_names (exprs_of keyed_item)).
  { repeat constructor; intros err Herr; vm_compute in Herr;
      injection Herr as <-; reflexivity. }
  split; [exact Hall |]. cbv zeta.
  assert (H1 : default false
                 (_initialized
                    (obj (exec (QMenuItemAction.__new__ keyed_item handle None true)
                            empty_world) 0%nat)) = false)
    by (vm_compute; reflexivity).
  assert (H2 : value (QMenuItemAction.initialize 0%nat keyed_item handle None)
                 (exec (QMenuItemAction.__new__ keyed_item handle None true)
                    empty_world) = Ok tt)
    by (vm_compute; reflexivity).
  split_and!; [exact H1 | exact H2 |].
  destruct (empty_context_update_never_raises 0%nat keyed_item Hall) as (_ & _ & Hnew).
  exact (Hnew _ handle None true H1 H2).
Defined.

Example hidden_item_is_hidden :
  let run := QMenuItemAction.construct hidden_item handle None true in
  value run empty_world = Ok 0%nat
  ∧ when hidden_item = Some (Constant false)
  ∧ eval (Constant false) ∅ = Ok false
  ∧ enablement (command hidden_item) = None
  ∧ QAction.isVisible (obj (exec run empty_world) 0%nat) = false
  ∧ QAction.isEnabled (obj (exec run empty_world) 0%nat) = false
  ∧ QAction.isEnabled
      (obj (exec (QAction.setVisible 0%nat true) (exec run empty_world)) 0%nat)
    = true.
Proof.
  cbv zeta.
  assert (Hv : value (QMenuItemAction.construct hidden_item handle None true)
                 empty_world = Ok 0%nat)
    by (vm_compute; reflexivity).
  split_and!; [exact Hv | reflexivity | reflexivity | reflexivity | | |].
  all: eapply (constant_false_when_hides hidden_item handle None true empty_world
                 0%nat (Constant false) Hv);
    [ intros r0 _ Hk; vm_compute in Hk; discriminate
    | reflexivity | reflexivity | reflexivity
    | intros e He; injection He as <-; exists true; reflexivity ].
Defined.

(** C7 as stated fails: [when] is the constant false, the command has no
    enablement expression and the toggle is a constant, so the update from
    the empty context runs to its end; the action is hidden, and a hidden
    action is not enabled. *)
Example hidden_item_is_disabled :
  when hidden_item = Some (Constant false)
  ∧ eval (Constant false) ∅ = Ok false
  ∧ enablement (command hidden_item) = None
  ∧ value (QMenuItemAction.construct hidden_item handle None true) empty_world
    = Ok 0%nat
  ∧ QAction.isVisible
      (obj (exec (QMenuItemAction.construct hidden_item handle None true)
              empty_world) 0%nat) = false
  ∧ QAction.isEnabled
      (obj (exec (QMenuItemAction.construct hidden_item handle None true)
              empty_world) 0%nat) = false.
Proof. split_and!; vm_compute; reflexivity. Qed.

(** Against the comment above the suppressed update (a constant expression
    is evaluated, so that a menu that is always off is hidden): when the
    toggle expression reads a context key, its [NameError] ends the update
    before [setVisible] is reached, and the item stays visible though its
    [when] is the constant false. *)
Example hidden_keyed_item_stays_visible :
  when hidden_keyed_item = Some (Constant false)
  ∧ eval (Constant false) ∅ = Ok false
  ∧ enablement (command hidden_keyed_item) = None
  ∧ value (QMenuItemAction.construct hidden_keyed_item handle None true) empty_world
    = Ok 0%nat
  ∧ QAction.isVisible
      (obj (exec (QMenuItemAction.construct hidden_keyed_item handle None true)
              empty_world) 0%nat) = true.
Proof. split_and!; vm_compute; reflexivity. Qed.

Example three_constructions :
  let first := QMenuItemAction.construct hidden_item handle None true in
  let w1 := exec first empty_world in
  let w2 := exec first w1 in
  let third := QMenuItemAction.construct hidden_item handle None false in
  value first empty_world = Ok 0%nat
  ∧ value first w1 = Ok 0%nat
  ∧ QMenuItemAction.key_of hidden_item handle w1
    = QMenuItemAction.key_of hidden_item handle empty_world
  ∧ value third w2 = Ok 1%nat
  ∧ (1 ≠ 0)%nat
  ∧ _cache (exec third w2) = _cache w2.
Proof.
  cbv zeta.
  set (first := QMenuItemAction.construct hidden_item handle None true).
  set (third := QMenuItemAction.construct hidden_item handle None false).
  assert (H1 : value first empty_world = Ok 0%nat) by (vm_compute; reflexivity).
  assert (H2 : value first (exec first empty_world) = Ok 0%nat)
    by (vm_compute; reflexivity).
  assert (Hk : QMenuItemAction.key_of hidden_item handle (exec first empty_world)
               = QMenuItemAction.key_of hidden_item handle empty_world)
    by (vm_compute; reflexivity).
  assert (H3 : value third (exec first (exec first empty_world)) = Ok 1%nat)
    by (vm_compute; reflexivity).
  destruct (cached_construction_returns_same_instance
              hidden_item handle None hidden_item handle None hidden_item handle None
              empty_world 0%nat 0%nat 1%nat H1 H2 Hk H3)
    as (_ & Hne & _ & _ & Hc).
  split_and!; [exact H1 | exact H2 | exact Hk | exact H3 | exact Hne | exact Hc].
Defined.

Example reentrant_init_runs_body_once :
  let w0 := exec (QMenuItemAction.__new__ hidden_item handle None true) empty_world in
  let call := mkInitArgs hidden_item handle None true in
  let w1 := exec (QMenuItemAction.__init__ 0%nat hidden_item handle None true) w0 in
  default false (_initialized (obj w0 0%nat)) = false
  ∧ _initialized (obj w1 0%nat) = Some true
  ∧ init_calls 0%nat (invoke_all 0%nat [call; call] w1) = 1%nat
  ∧ destroyed_slots (obj (invoke_all 0%nat [call; call] w1) 0%nat)
    = [QMenuItemAction.key_of hidden_item handle w0].
Proof.
  cbv zeta.
  set (w0 := exec (QMenuItemAction.__new__ hidden_item handle None true) empty_world).
  assert (H1 : default false (_initialized (obj w0 0%nat)) = false)
    by (vm_compute; reflexivity).
  assert (H2 : _initialized
                 (obj (exec (QMenuItemAction.__init__ 0%nat hidden_item handle None true)
                         w0) 0%nat) = Some true)
    by (vm_compute; reflexivity).
  destruct (init_body_runs_once 0%nat hidden_item handle None true
              [mkInitArgs hidden_item handle None true;
               mkInitArgs hidden_item handle None true] w0 H1 H2)
    as (Hn & Hds & _).
  split_and!; [exact H1 | exact H2 | exact Hn | exact Hds].
Defined.

Example destroyed_then_rebuilt :
  let first := QMenuItemAction.construct hidden_item handle None true in
  let key := QMenuItemAction.key_of hidden_item handle empty_world in
  let w1 := exec first empty_world in
  let w2 := exec (teardown ActionThenApp 0%nat main_app) w1 in
  _cache empty_world !! key = None
  ∧ value first empty_world = Ok 0%nat
  ∧ _cache w1 !! key = Some 0%nat
  ∧ value (teardown ActionThenApp 0%nat main_app) w1 = Ok tt
  ∧ _cache w2 !! key = None
  ∧ QMenuItemAction.key_of hidden_item handle w2 = key
  ∧ value first w2 = Ok 1%nat
  ∧ _cache (exec first w2) !! key = Some 1%nat.
Proof.
  cbv zeta.
  set (first := QMenuItemAction.construct hidden_item handle None true).
  set (key := QMenuItemAction.key_of hidden_item handle empty_world).
  assert (H1 : _cache empty_world !! key = None) by (vm_compute; reflexivity).
  assert (H2 : value first empty_world = Ok 0%nat) by (vm_compute; reflexivity).
  destruct (destroyed_instance_is_replaced hidden_item handle None empty_world
              0%nat H1 H2) as ((Hc & Hown & Happ & Hdom) & Hlater).
  destruct (Hlater (exec first empty_world) ActionThenApp Hown Happ Hdom)
    as (Hv & Hgone & Hnext).
  assert (Hk : QMenuItemAction.key_of hidden_item handle
                 (exec (teardown ActionThenApp 0%nat main_app)
                    (exec first empty_world)) = key)
    by (vm_compute; reflexivity).
  assert (H3 : value first
                 (exec (teardown ActionThenApp 0%nat main_app)
                    (exec first empty_world)) = Ok 1%nat)
    by (vm_compute; reflexivity).
  destruct (Hnext hidden_item handle None 1%nat Hk H3) as (_ & _ & Hc').
  split_and!; [exact H1 | exact H2 | exact Hc | exact Hv | exact Hgone
              | exact Hk | exact H3 | exact Hc'].
Defined.

Example failing_provider_leaves_instance_cached :
  let run := QMenuItemAction.construct failing_item handle None true in
  let key := QMenuItemAction.key_of failing_item handle empty_world in
  _cache empty_world !! key = None
  ∧ value run empty_world = Raise (mkExc ValueError "no current value")
  ∧ _cache (exec run empty_world) !! key = Some 0%nat.
Proof.
  cbv zeta.
  assert (H1 : _cache empty_world
               !! QMenuItemAction.key_of failing_item handle empty_world = None)
    by (vm_compute; reflexivity).
  assert (H2 : value (QMenuItemAction.construct failing_item handle None true)
                 empty_world = Raise (mkExc ValueError "no current value"))
    by (vm_compute; reflexivity).
  destruct (failed_construction_stays_cached failing_item handle None empty_world
              (mkExc ValueError "no current value") H1 H2) as (_ & Hc & _).
  split_and!; [exact H1 | exact H2 | exact Hc].
Defined.

(** C2 as stated fails: when the guarded block raises, the flag stays
    unset, and the next construction under the key, which finds the same
    instance in the cache, runs the command-rule initialiser on it a second
    time; neither run reached the registration of the hooks. *)
Example failed_initialisation_is_retried :
  let run := QMenuItemAction.construct failing_item handle None true in
  let key := QMenuItemAction.key_of failing_item handle empty_world in
  let w1 := exec run empty_world in
  let w2 := exec run w1 in
  _cache w1 !! key = Some 0%nat
  ∧ _cache w2 !! key = Some 0%nat
  ∧ init_calls 0%nat w1 = 1%nat
  ∧ init_calls 0%nat w2 = 2%nat
  ∧ _initialized (obj w2 0%nat) = None
  ∧ destroyed_slots (obj w2 0%nat) = [].
Proof. split_and!; vm_compute; reflexivity. Qed.

(** A failure that is not a missing name is not suppressed. *)
Example division_by_zero_escapes_construction :
  value (QMenuItemAction.construct
           (item None None (Some (Div 1 0))) handle None true) empty_world
  = Raise (mkExc ZeroDivisionError "division by zero").
Proof. vm_compute; reflexivity. Qed.

Example expression_rule_presentation :
  icon expr_rule = None
  ∧ let o := obj (exec (QCommandRuleAction.construct expr_rule handle None false)
                    empty_world) 0%nat in
    text o = "Open" ∧ objectName o = "file.open" ∧ qicon o = None
    ∧ toolTip o = "Open a file" ∧ statusTip o = "" ∧ checkable o = true
    ∧ QAction.isVisible o = true ∧ QAction.isEnabled o = true.
Proof.
  split; [reflexivity |]. cbv zeta.
  destruct (rule_action_presentation expr_rule handle None false empty_world)
    as ((Ht & Hn) & Hrest).
  destruct (Hrest eq_refl) as (Hi & Htt & Hst & Hcb & Hvis & Hen).
  split_and!; [exact Ht | exact Hn | exact Hi | exact (Htt eq_refl) | exact Hst
              | exact Hcb | exact Hvis | exact Hen].
Defined.

Example expression_toggle_starts_unchecked :
  provider_of expr_rule = None
  ∧ icon expr_rule = None
  ∧ let run := QCommandRuleAction.construct expr_rule handle None false in
    value run empty_world = Ok 0%nat
    ∧ checked (obj (exec run empty_world) 0%nat) = false
    ∧ trace (exec run empty_world) = [EvQActionInit 0%nat].
Proof.
  split_and!; [reflexivity | reflexivity |]. cbv zeta.
  destruct (rule_action_without_provider expr_rule handle None false empty_world
              eq_refl eq_refl) as (Hv & Hck & Htr).
  split_and!; [exact Hv | exact Hck | exact Htr].
Defined.


Example missing_key_fails_the_rule_update :
  _cmd_rule (obj w_expr_rule 0%nat) = Some expr_rule
  ∧ QCommandRuleAction.update_from_context 0%nat ∅ w_expr_rule
    = (w_expr_rule, Raise (mkExc NameError "on"))
  ∧ QCommandRuleAction.update_from_context 0%nat (<["on" := PyBool false]> ∅)
      w_expr_rule
    = (upd 0%nat (with_enabled false) w_expr_rule, Raise (mkExc NameError "x")).
Proof.
  assert (H1 : _cmd_rule (obj w_expr_rule 0%nat) = Some expr_rule)
    by (vm_compute; reflexivity).
  split_and!; [exact H1 | |].
  - destruct (rule_update_failures 0%nat ∅ expr_rule w_expr_rule H1) as (Hen & _).
    exact (Hen (Name "on") (mkExc NameError "on") eq_refl eq_refl).
  - destruct (rule_update_failures 0%nat (<["on" := PyBool false]> ∅) expr_rule
                w_expr_rule H1) as (_ & Hcond).
    exact (Hcond false (Name "x") (mkExc NameError "x") eq_refl eq_refl eq_refl).
Defined.

Example context_shows_and_disables :
  built_from keyed_item (obj w_keyed 0%nat)
  ∧ (let update := QMenuItemAction.update_from_context 0%nat ctx_shown_disabled in
     value update w_keyed = Ok tt
     ∧ QAction.isVisible (obj (exec update w_keyed) 0%nat) = true
     ∧ QAction.isEnabled (obj (exec update w_keyed) 0%nat) = false)
  ∧ (let update := QMenuItemAction.update_from_context 0%nat ctx_hidden_enabled in
     eval_or_true (enablement (command keyed_item)) ctx_hidden_enabled = Ok true
     ∧ value update w_keyed = Ok tt
     ∧ QAction.isVisible (obj (exec update w_keyed) 0%nat) = false
     ∧ QAction.isEnabled (obj (exec update w_keyed) 0%nat) = false).
Proof.
  assert (Hb : built_from keyed_item (obj w_keyed 0%nat))
    by (split; vm_compute; reflexivity).
  split_and!; [exact Hb | |]; cbv zeta.
  - assert (Hen : eval_or_true (enablement (command keyed_item)) ctx_shown_disabled
                  = Ok false) by (vm_compute; reflexivity).
    assert (Hcond : ∀ e, condition_of (command keyed_item) = Some e →
                         ∃ c, eval e ctx_shown_disabled = Ok c).
    { intros e He. injection He as <-. exists true. vm_compute. reflexivity. }
    assert (Hwhen : eval_or_true (when keyed_item) ctx_shown_disabled = Ok true)
      by (vm_compute; reflexivity).
    destruct (menu_update_sets_visible 0%nat ctx_shown_disabled keyed_item w_keyed
                false Hb Hen Hcond) as (Hok & _).
    destruct (Hok true Hwhen) as (Hv & Hvis & Hena).
    split_and!; [exact Hv | exact Hvis | exact Hena].
  - assert (Hen : eval_or_true (enablement (command keyed_item)) ctx_hidden_enabled
                  = Ok true) by (vm_compute; reflexivity).
    assert (Hcond : ∀ e, condition_of (command keyed_item) = Some e →
                         ∃ c, eval e ctx_hidden_enabled = Ok c).
    { intros e He. injection He as <-. exists false. vm_compute. reflexivity. }
    assert (Hwhen : eval_or_true (when keyed_item) ctx_hidden_enabled = Ok false)
      by (vm_compute; reflexivity).
    destruct (menu_update_sets_visible 0%nat ctx_hidden_enabled keyed_item w_keyed
                true Hb Hen Hcond) as (Hok & _).
    destruct (Hok false Hwhen) as (Hv & Hvis & Hena).
    split_and!; [exact Hen | exact Hv | exact Hvis | exact Hena].
Defined.

Example missing_enablement_key_changes_nothing :
  built_from keyed_item (obj w_keyed 0%nat)
  ∧ enablement (command keyed_item) = Some (Name "on")
  ∧ eval (Name "on") ∅ = Raise (mkExc NameError "on")
  ∧ suppress NameError (QMenuItemAction.update_from_context 0%nat ∅) w_keyed
    = (w_keyed, Ok tt).
Proof.
  assert (Hb : built_from keyed_item (obj w_keyed 0%nat))
    by (split; vm_compute; reflexivity).
  split_and!; [exact Hb | reflexivity | reflexivity |].
  exact (failing_enablement_skips_refresh 0%nat keyed_item w_keyed (Name "on")
           (mkExc NameError "on") Hb eq_refl eq_refl eq_refl).
Defined.

Example disabled_item_is_disabled :
  let run := QMenuItemAction.construct disabled_item handle None true in
  value run empty_world = Ok 0%nat
  ∧ eval_or_true (enablement (command disabled_item)) ∅ = Ok false
  ∧ QAction.isVisible (obj (exec run empty_world) 0%nat) = true
  ∧ QAction.isEnabled (obj (exec run empty_world) 0%nat) = false.
Proof.
  cbv zeta.
  assert (Hv : value (QMenuItemAction.construct disabled_item handle None true)
                 empty_world = Ok 0%nat) by (vm_compute; reflexivity).
  assert (Hvis : QAction.isVisible
                   (obj (exec (QMenuItemAction.construct disabled_item handle None
                                 true) empty_world) 0%nat) = true)
    by (vm_compute; reflexivity).
  split_and!; [exact Hv | reflexivity | exact Hvis |].
  rewrite (constant_enablement_applies_at_construction disabled_item handle None true
             empty_world 0%nat false Hv); [apply andb_false_r | | reflexivity].
  intros r0 _ Hk. vm_compute in Hk. discriminate.
Defined.

Example uncached_twin_evicts_the_cached_instance :
  let run := QMenuItemAction.construct hidden_item handle None false in
  let key := QMenuItemAction.key_of hidden_item handle w_hidden in
  value run w_hidden = Ok 1%nat
  ∧ _cache w_hidden !! key = Some 0%nat
  ∧ _cache (exec run w_hidden) !! key = Some 0%nat
  ∧ _cache (exec (QMenuItemAction.destroy 1%nat) (exec run w_hidden)) !! key = None.
Proof.
  cbv zeta.
  assert (Hv : value (QMenuItemAction.construct hidden_item handle None false)
                 w_hidden = Ok 1%nat) by (vm_compute; reflexivity).
  assert (Hk : _cache w_hidden !! QMenuItemAction.key_of hidden_item handle w_hidden
               = Some 0%nat) by (vm_compute; reflexivity).
  destruct (uncached_instance_evicts_cached_entry hidden_item handle None w_hidden
              1%nat Hv) as (_ & Hc & _ & _ & Hgone & _).
  split_and!; [exact Hv | exact Hk | | exact Hgone].
  rewrite Hc. exact Hk.
Defined.

Example second_item_leaves_the_first :
  value (QMenuItemAction.construct keyed_item handle None true) w_hidden = Ok 1%nat
  ∧ obj (exec (QMenuItemAction.construct keyed_item handle None true) w_hidden) 0%nat
    = obj w_hidden 0%nat.
Proof.
  assert (Hv : value (QMenuItemAction.construct keyed_item handle None true)
                 w_hidden = Ok 1%nat) by (vm_compute; reflexivity).
  split; [exact Hv |].
  apply (construction_leaves_other_objects keyed_item handle None true w_hidden
           1%nat Hv 0%nat).
  discriminate.
Defined.

Example named_application_twice :
  let first := QMenuItemAction.construct hidden_item (ByName "main") None true in
  value first empty_world = Ok 0%nat
  ∧ value (QMenuItemAction.construct hidden_item (ByName "main") (Some 0%nat) true)
      (exec first empty_world) = Ok 0%nat.
Proof.
  cbv zeta.
  assert (H1 : value (QMenuItemAction.construct hidden_item (ByName "main") None true)
                 empty_world = Ok 0%nat) by (vm_compute; reflexivity).
  assert (H2 : ∃ r2,
            value (QMenuItemAction.construct hidden_item (ByName "main")
                     (Some 0%nat) true)
              (exec (QMenuItemAction.construct hidden_item (ByName "main") None true)
                 empty_world) = Ok r2)
    by (eexists; vm_compute; reflexivity).
  destruct H2 as [r2 H2].
  split; [exact H1 |].
  rewrite H2. f_equal.
  exact (same_arguments_same_instance hidden_item (ByName "main") None (Some 0%nat)
           empty_world 0%nat r2 H1 H2).
Defined.

Example short_title_is_not_used :
  short_title (command short_titled_item) = Some "Copy"
  ∧ text (obj (exec (QMenuItemAction.construct short_titled_item handle None false)
                 empty_world) 0%nat) = "Copy selection".
Proof.
  split; [reflexivity |].
  exact (menu_action_shows_full_title short_titled_item handle None false empty_world
           (or_introl eq_refl)).
Defined.

Example division_by_zero_fails_the_construction :
  _cache empty_world !! QMenuItemAction.key_of dividing_item handle empty_world = None
  ∧ icon (command dividing_item) = None
  ∧ first_failure dividing_item ∅ = Some (mkExc ZeroDivisionError "division by zero")
  ∧ value (QMenuItemAction.construct dividing_item handle None true) empty_world
    = Raise (mkExc ZeroDivisionError "division by zero").
Proof.
  assert (H1 : _cache empty_world
               !! QMenuItemAction.key_of dividing_item handle empty_world = None)
    by (vm_compute; reflexivity).
  split_and!; [exact H1 | reflexivity | reflexivity |].
  exact (new_instance_outcome dividing_item handle None true empty_world
           (or_intror H1) eq_refl).
Defined.

Example cached_hit_calls_nothing :
  let run := QMenuItemAction.construct hidden_item handle None true in
  _cache w_hidden !! QMenuItemAction.key_of hidden_item handle w_hidden = Some 0%nat
  ∧ _initialized (obj w_hidden 0%nat) = Some true
  ∧ built_from hidden_item (obj w_hidden 0%nat)
  ∧ value run w_hidden = Ok 0%nat
  ∧ trace (exec run w_hidden) = trace w_hidden.
Proof.
  cbv zeta.
  assert (H1 : _cache w_hidden !! QMenuItemAction.key_of hidden_item handle w_hidden
               = Some 0%nat) by (vm_compute; reflexivity).
  assert (H2 : _initialized (obj w_hidden 0%nat) = Some true)
    by (vm_compute; reflexivity).
  assert (H3 : built_from hidden_item (obj w_hidden 0%nat))
    by (split; vm_compute; reflexivity).
  destruct (cached_instance_outcome hidden_item handle None w_hidden 0%nat H1 H2 H3)
    as (Hv & Htr & _).
  split_and!; [exact H1 | exact H2 | exact H3 | exact Hv | exact Htr].
Defined.


End Examples.
